(** * Network capture engine of playwright-mcp: request store, page tracker,
      context lifecycle and limit configuration.

    The development embeds the JavaScript sources

      - [requestStorage.js]  (class [RequestStorage] and its helpers),
      - [pageTracker.js]     (class [PageTracker] and its [safe*] helpers),
      - [state.js]           ([attachPage], [detachPage], [configureNetworkLimits])

    as Rocq functions over an explicit object heap, and proves the properties
    the specification states about them. *)

From Stdlib Require Import ZArith QArith Qround String Ascii List Bool Lia Lqa.
From Stdlib Require Import Permutation Sorted DecimalString DecimalN.
From stdpp Require Import base option gmap strings list fin_maps sorting.

Local Open Scope string_scope.
Local Open Scope list_scope.
Local Open Scope Z_scope.

(* ===================================================================== *)
(** ** JavaScript values *)
(* ===================================================================== *)

(** A JavaScript number: a finite value (kept exact, as a rational), an
    infinity, or NaN.  Negative zero is not distinguished from zero. *)
Inductive JsNum :=
  | NaN
  | PosInf
  | NegInf
  | Fin (q : Q).

(** Heap addresses of plain objects. *)
Abbreviation loc := nat.

(** A JavaScript value.  A string is a sequence of code units; an object is
    reached through its address. *)
Inductive JsVal :=
  | JUndefined
  | JNull
  | JBool (b : bool)
  | JNum (n : JsNum)
  | JStr (s : string)
  | JRef (l : loc).

(** The integer [z] as a JavaScript value. *)
Definition JInt (z : Z) : JsVal := JNum (Fin (inject_Z z)).

(** A plain object: its own enumerable properties. *)
Abbreviation Obj := (gmap string JsVal).

(** The heap of plain objects; an object's address is its index, and objects
    are never freed. *)
Abbreviation Heap := (list (gmap string JsVal)).

(** [o.k]: a missing property reads as [undefined]. *)
Definition getProp (o : Obj) (k : string) : JsVal :=
  default JUndefined (o !! k).

(** [h[l]] as an object, the empty object for a dangling address. *)
Definition deref (h : Heap) (l : loc) : Obj := default ∅ (h !! l).

(** [new Object]: the new object is placed at the end of the heap. *)
Definition alloc (h : Heap) (o : Obj) : loc * Heap := (length h, h ++ [o]).

(** [typeof v === "number"]. *)
Definition isNumber (v : JsVal) : bool :=
  match v with JNum _ => true | _ => false end.

(** [typeof v === "string"]. *)
Definition isString (v : JsVal) : bool :=
  match v with JStr _ => true | _ => false end.

(** [v === undefined || v === null], the test of [??]. *)
Definition isNullish (v : JsVal) : bool :=
  match v with JUndefined | JNull => true | _ => false end.

(** ToBoolean. *)
Definition truthy (v : JsVal) : bool :=
  match v with
  | JUndefined | JNull => false
  | JBool b => b
  | JNum NaN => false
  | JNum (Fin q) => negb (Qeq_bool q 0)
  | JNum _ => true
  | JStr s => negb (String.eqb s "")
  | JRef _ => true
  end.

(** [a || b]. *)
Definition jsOr (a b : JsVal) : JsVal := if truthy a then a else b.

(** [a ?? b]. *)
Definition jsNullish (a b : JsVal) : JsVal := if isNullish a then b else a.

(* --------------------------------------------------------------------- *)
(** *** Number arithmetic *)

Definition numAdd (a b : JsNum) : JsNum :=
  match a, b with
  | NaN, _ | _, NaN => NaN
  | PosInf, NegInf | NegInf, PosInf => NaN
  | PosInf, _ | _, PosInf => PosInf
  | NegInf, _ | _, NegInf => NegInf
  | Fin x, Fin y => Fin (Qred (x + y))
  end.

Definition numNeg (a : JsNum) : JsNum :=
  match a with
  | NaN => NaN
  | PosInf => NegInf
  | NegInf => PosInf
  | Fin x => Fin (Qred (- x))
  end.

Definition numSub (a b : JsNum) : JsNum := numAdd a (numNeg b).

Definition numMul (a b : JsNum) : JsNum :=
  match a, b with
  | NaN, _ | _, NaN => NaN
  | Fin x, Fin y => Fin (Qred (x * y))
  | Fin x, PosInf | PosInf, Fin x =>
      if Qeq_bool x 0 then NaN else if Qle_bool 0 x then PosInf else NegInf
  | Fin x, NegInf | NegInf, Fin x =>
      if Qeq_bool x 0 then NaN else if Qle_bool 0 x then NegInf else PosInf
  | PosInf, PosInf | NegInf, NegInf => PosInf
  | PosInf, NegInf | NegInf, PosInf => NegInf
  end.

(** [a <= b] on numbers: false as soon as one side is NaN. *)
Definition numLe (a b : JsNum) : bool :=
  match a, b with
  | NaN, _ | _, NaN => false
  | NegInf, _ => true
  | _, PosInf => true
  | PosInf, _ => false
  | _, NegInf => false
  | Fin x, Fin y => Qle_bool x y
  end.

(** [a === b] on numbers. *)
Definition numEq (a b : JsNum) : bool :=
  match a, b with
  | PosInf, PosInf | NegInf, NegInf => true
  | Fin x, Fin y => Qeq_bool x y
  | _, _ => false
  end.

(** [a < b] on numbers. *)
Definition numLt (a b : JsNum) : bool := numLe a b && negb (numEq a b).

(** [Number.isFinite]. *)
Definition numIsFinite (a : JsNum) : bool :=
  match a with Fin _ => true | _ => false end.

(** [Math.round]: the nearest integer, a tie going up. *)
Definition mathRound (a : JsNum) : JsNum :=
  match a with
  | Fin x => Fin (inject_Z (Qfloor (x + (1 # 2))))
  | other => other
  end.

(** ToIntegerOrInfinity on a finite number: truncation toward zero. *)
Definition truncQ (q : Q) : Z :=
  if Qle_bool 0 q then Qfloor q else Qceiling q.

(** [a === b]. *)
Definition strictEq (a b : JsVal) : bool :=
  match a, b with
  | JUndefined, JUndefined | JNull, JNull => true
  | JBool x, JBool y => Bool.eqb x y
  | JNum x, JNum y => numEq x y
  | JStr x, JStr y => String.eqb x y
  | JRef x, JRef y => Nat.eqb x y
  | _, _ => false
  end.

(* --------------------------------------------------------------------- *)
(** *** Strings *)

(** The decimal numeral of a counter, as a template literal prints it. *)
Definition decimal (n : N) : string := NilEmpty.string_of_uint (N.to_uint n).

(** [Buffer.byteLength(s)]: the UTF-8 length; a code unit below 128 takes one
    byte and any other code unit of this alphabet takes two. *)
Fixpoint byteLength (s : string) : Z :=
  match s with
  | EmptyString => 0
  | String c rest => (if (N_of_ascii c <? 128)%N then 1 else 2) + byteLength rest
  end.

(** [s.length]. *)
Definition strLength (s : string) : Z := Z.of_nat (String.length s).

(** [s.slice(0, n)] for an integer [n]: a negative [n] counts from the end. *)
Definition sliceTo (s : string) (n : Z) : string :=
  let len := strLength s in
  let stop := if n <? 0 then Z.max (len + n) 0 else Z.min n len in
  String.substring 0 (Z.to_nat stop) s.

(* ===================================================================== *)
(** ** The host *)
(* ===================================================================== *)

(** What the JavaScript host supplies and this repository only calls: the
    numeric reading of a string ([Number(s)]), the printing of a number
    ([String(n)]), date parsing ([new Date(s).getTime()], NaN when the
    string is no date), [toUpperCase], the canonical form of a code unit
    under a regular expression's [i] flag, and the regular expression engine
    for arbitrary sources ([new RegExp(source, "i")] as the predicate of its
    [test], [None] for a syntax error). *)
Class Host := {
  StringToNumber : string -> JsNum;
  NumberToString : JsNum -> string;
  DateParse : string -> JsNum;
  ToUpperCase : string -> string;
  Canonicalize : ascii -> ascii;
  RegExpI : string -> option (string -> bool)
}.

(* ===================================================================== *)
(** ** Coercions that go through the host *)
(* ===================================================================== *)

Section Coercions.
Context {host : Host}.

(** ToNumber. *)
Definition toNumber (v : JsVal) : JsNum :=
  match v with
  | JUndefined => NaN
  | JNull => Fin 0
  | JBool b => if b then Fin 1 else Fin 0
  | JNum n => n
  | JStr s => StringToNumber s
  | JRef _ => NaN
  end.

(** ToString; a plain object prints as [[object Object]]. *)
Definition toString (v : JsVal) : string :=
  match v with
  | JUndefined => "undefined"
  | JNull => "null"
  | JBool b => if b then "true" else "false"
  | JNum n => NumberToString n
  | JStr s => s
  | JRef _ => "[object Object]"
  end.

(** [a + b]: concatenation when either side is a string or an object,
    numeric addition otherwise. *)
Definition jsAdd (a b : JsVal) : JsVal :=
  match a, b with
  | (JStr _ | JRef _), _ | _, (JStr _ | JRef _) =>
      JStr (toString a ++ toString b)%string
  | _, _ => JNum (numAdd (toNumber a) (toNumber b))
  end.

(** [a - b]. *)
Definition jsSub (a b : JsVal) : JsNum := numSub (toNumber a) (toNumber b).

(** [v++] on a counter variable that holds a number. *)
Definition jsIncr (v : JsVal) : JsVal := JNum (numAdd (toNumber v) (Fin 1)).

End Coercions.

(* ===================================================================== *)
(** ** [Map]: keyed entries in insertion order *)
(* ===================================================================== *)

Section JsMap.
Context {K V : Type} `{EqDecision K}.

(** [m.get(k)]. *)
Fixpoint mapGet (m : list (K * V)) (k : K) : option V :=
  match m with
  | [] => None
  | (k', v) :: rest => if decide (k' = k) then Some v else mapGet rest k
  end.

(** [m.has(k)]. *)
Definition mapHas (m : list (K * V)) (k : K) : bool :=
  match mapGet m k with Some _ => true | None => false end.

(** [m.set(k, v)]: an existing key keeps its place, a new one goes last. *)
Fixpoint mapSet (m : list (K * V)) (k : K) (v : V) : list (K * V) :=
  match m with
  | [] => [(k, v)]
  | (k', v') :: rest =>
      if decide (k' = k) then (k', v) :: rest else (k', v') :: mapSet rest k v
  end.

(** [m.delete(k)]: no entry is left under [k]. *)
Fixpoint mapDelete (m : list (K * V)) (k : K) : list (K * V) :=
  match m with
  | [] => []
  | (k', v') :: rest =>
      if decide (k' = k) then mapDelete rest k else (k', v') :: mapDelete rest k
  end.

(** [Array.from(m.values())]. *)
Definition mapValues (m : list (K * V)) : list V := map snd m.

End JsMap.

(* ===================================================================== *)
(** ** Completions *)
(* ===================================================================== *)

(** The outcome of a call that may throw. *)
Inductive Completion (A : Type) :=
  | Normal (a : A)
  | Throw.
Arguments Normal {A} a.
Arguments Throw {A}.

Definition bindC {A B} (c : Completion A) (k : A -> Completion B) : Completion B :=
  match c with
  | Normal a => k a
  | Throw => Throw
  end.

Notation "'call' x <- c ; k" := (bindC c (fun x => k))
  (at level 10, x name, c at level 100, k at level 200).

(** [xs.filter(f)] for a callback that may throw: the first throw aborts. *)
Fixpoint filterC {A} (f : A -> Completion bool) (xs : list A) : Completion (list A) :=
  match xs with
  | [] => Normal []
  | x :: rest =>
      call keep <- f x ;
      call rest' <- filterC f rest ;
      Normal (if keep then x :: rest' else rest')
  end.

(* ===================================================================== *)
(** ** requestStorage.js *)
(* ===================================================================== *)

(** The fields of a [RequestStorage] instance.  [requests] maps a record
    identifier to the address of the record object. *)
Record RequestStorage := mkStorage {
  requests : list (string * loc);
  requestCounter : N;
  activePageMonitors : list (string * string)
}.

(** [new RequestStorage()]. *)
Definition newStorage : RequestStorage :=
  {| requests := []; requestCounter := 0; activePageMonitors := [] |}.

(** [Buffer.byteLength(v)]: a type error for anything that is not a string. *)
Definition bufferByteLength (v : JsVal) : Completion JsVal :=
  match v with
  | JStr s => Normal (JInt (byteLength s))
  | _ => Throw
  end.

(** [body ? Buffer.byteLength(body) : 0]. *)
Definition bodyBytes (body : JsVal) : Completion JsVal :=
  if truthy body then bufferByteLength body else Normal (JInt 0).

(** [if (typeof record.bytesKey !== "number")
      record.bytesKey = record.bodyKey ? Buffer.byteLength(record.bodyKey) : 0]. *)
Definition deriveBytesOnSave (bodyKey bytesKey : string) (record : Obj) : Completion Obj :=
  if negb (isNumber (getProp record bytesKey)) then
    call n <- bodyBytes (getProp record bodyKey) ;
    Normal (<[bytesKey := n]> record)
  else Normal record.

(** [if (typeof record.sizeKey !== "number") record.sizeKey = record.bytesKey]. *)
Definition deriveSizeOnSave (bytesKey sizeKey : string) (record : Obj) : Obj :=
  if negb (isNumber (getProp record sizeKey))
  then <[sizeKey := getProp record bytesKey]> record
  else record.

(** The four derivations of [saveRequest], run on the new record in source
    order; the result is the record on normal completion. *)
Definition deriveOnSave (record : Obj) : Completion Obj :=
  call r1 <- deriveBytesOnSave "requestBody" "requestBodyBytes" record ;
  let r2 := deriveSizeOnSave "requestBodyBytes" "requestBodySize" r1 in
  call r3 <- deriveBytesOnSave "responseBody" "responseBodyBytes" r2 ;
  Normal (deriveSizeOnSave "responseBodyBytes" "responseBodySize" r3).

(** [saveRequest(data)] at time [now] (the value of [Date.now()]).  The
    counter is advanced before anything can throw; the record reaches the
    heap and the map only on normal completion. *)
Definition saveRequest (now : Z) (data : Obj) (st : RequestStorage) (h : Heap)
  : Completion loc * RequestStorage * Heap :=
  let counter := (requestCounter st + 1)%N in
  let requestId := ("req-" ++ decimal counter)%string in
  let record : Obj :=
    data ∪ <["id" := JStr requestId]> (<["timestamp" := JInt now]> ∅) in
  let st1 := {| requests := requests st; requestCounter := counter;
                activePageMonitors := activePageMonitors st |} in
  match deriveOnSave record with
  | Throw => (Throw, st1, h)
  | Normal record' =>
      let '(l, h') := alloc h record' in
      (Normal l,
       {| requests := mapSet (requests st) requestId l; requestCounter := counter;
          activePageMonitors := activePageMonitors st |},
       h')
  end.

(** One derivation of [updateRequest]: when the patch carries [bodyKey] and
    the record's [bytesKey] is not yet a number, measure the record's body. *)
Definition deriveBytesOnUpdate (patch : Obj) (bodyKey bytesKey : string)
    (existing : Obj) : Completion unit * Obj :=
  if negb (strictEq (getProp patch bodyKey) JUndefined)
     && negb (isNumber (getProp existing bytesKey))
  then match bodyBytes (getProp existing bodyKey) with
       | Normal n => (Normal tt, <[bytesKey := n]> existing)
       | Throw => (Throw, existing)
       end
  else (Normal tt, existing).

(** The other derivation: when the patch carries [sizeKey] and the record's
    is not a number, take the patch's. *)
Definition deriveSizeOnUpdate (patch : Obj) (sizeKey : string) (existing : Obj) : Obj :=
  if negb (strictEq (getProp patch sizeKey) JUndefined)
     && negb (isNumber (getProp existing sizeKey))
  then <[sizeKey := getProp patch sizeKey]> existing
  else existing.

(** The body of [updateRequest] on the record object: [Object.assign], then
    the four derivations.  A throw leaves the writes made so far. *)
Definition updateRecord (patch existing : Obj) : Completion unit * Obj :=
  let e0 := patch ∪ existing in
  match deriveBytesOnUpdate patch "responseBody" "responseBodyBytes" e0 with
  | (Throw, e1) => (Throw, e1)
  | (Normal _, e1) =>
      let e2 := deriveSizeOnUpdate patch "responseBodySize" e1 in
      match deriveBytesOnUpdate patch "requestBody" "requestBodyBytes" e2 with
      | (Throw, e3) => (Throw, e3)
      | (Normal _, e3) =>
          (Normal tt, deriveSizeOnUpdate patch "requestBodySize" e3)
      end
  end.

(** [updateRequest(requestId, patch)]: [None] is the [null] of an unknown
    identifier; the record is changed in place. *)
Definition updateRequest (requestId : string) (patch : Obj)
    (st : RequestStorage) (h : Heap) : Completion (option loc) * Heap :=
  match mapGet (requests st) requestId with
  | None => (Normal None, h)
  | Some l =>
      match updateRecord patch (deref h l) with
      | (Normal _, o) => (Normal (Some l), <[l := o]> h)
      | (Throw, o) => (Throw, <[l := o]> h)
      end
  end.

(** [getRequest(requestId)]. *)
Definition getRequest (requestId : string) (st : RequestStorage) : option loc :=
  mapGet (requests st) requestId.

(* --------------------------------------------------------------------- *)
(** *** Regular expressions built by [makeWildcardRegExp] *)

(** The sources [makeWildcardRegExp] hands to [new RegExp] are made of
    escaped syntax characters, [.], [*], [?] and ordinary characters; their
    grammar is small enough to be read here rather than by the host. *)
Inductive Atom :=
  | AnyChar
  | Lit (c : ascii).

Inductive Quant :=
  | One
  | Opt
  | Star.

Inductive Token :=
  | TAtom (a : Atom)
  | TStar
  | TQuest.

(** The outcome of reading a source: a pattern, a syntax error (what
    [new RegExp] throws), or a construct outside the grammar read here. *)
Inductive Parsed (A : Type) :=
  | Pattern (a : A)
  | SyntaxError
  | Unread.
Arguments Pattern {A} a.
Arguments SyntaxError {A}.
Arguments Unread {A}.

Definition mapParsed {A B} (f : A -> B) (p : Parsed A) : Parsed B :=
  match p with
  | Pattern a => Pattern (f a)
  | SyntaxError => SyntaxError
  | Unread => Unread
  end.

Definition oneOf (chars : string) (c : ascii) : bool :=
  existsb (Ascii.eqb c) (list_ascii_of_string chars).

(** The character class of the first [replace]: [. + ^ $ { } ( ) | [ ] \]. *)
Definition isWildcardMeta : ascii -> bool := oneOf ".+^${}()|[]\".

(** The syntax characters of a regular expression. *)
Definition isSyntaxChar : ascii -> bool := oneOf "^$\.*+?()[]{}|".

(** [pattern.replace(/[.+^${}()|\[\]\\]/g, "\\$&")]. *)
Fixpoint escapeWildcard (s : string) : string :=
  match s with
  | EmptyString => EmptyString
  | String c rest =>
      if isWildcardMeta c then String "\" (String c (escapeWildcard rest))
      else String c (escapeWildcard rest)
  end.

(** [escaped.replace(/\*/g, ".*")]. *)
Fixpoint replaceStars (s : string) : string :=
  match s with
  | EmptyString => EmptyString
  | String c rest =>
      if Ascii.eqb c "*" then String "." (String "*" (replaceStars rest))
      else String c (replaceStars rest)
  end.

Fixpoint lexRegExp (s : string) : Parsed (list Token) :=
  match s with
  | EmptyString => Pattern []
  | String c rest =>
      if Ascii.eqb c "\" then
        match rest with
        | EmptyString => SyntaxError
        | String d rest' =>
            if isSyntaxChar d then mapParsed (cons (TAtom (Lit d))) (lexRegExp rest')
            else Unread
        end
      else if Ascii.eqb c "." then mapParsed (cons (TAtom AnyChar)) (lexRegExp rest)
      else if Ascii.eqb c "*" then mapParsed (cons TStar) (lexRegExp rest)
      else if Ascii.eqb c "?" then mapParsed (cons TQuest) (lexRegExp rest)
      else if isSyntaxChar c then Unread
      else mapParsed (cons (TAtom (Lit c))) (lexRegExp rest)
  end.

(** What the parser holds while it reads the tokens of one term: nothing,
    an atom that may still take a quantifier, a quantified atom that may
    still take the [?] that makes the quantifier lazy, or a finished term.
    Laziness changes no [test], so it is not kept. *)
Inductive Pending :=
  | NoTerm
  | Bare (a : Atom)
  | Quantified (a : Atom) (q : Quant)
  | Finished (a : Atom) (q : Quant).

Definition flush (pending : Pending) : list (Atom * Quant) :=
  match pending with
  | NoTerm => []
  | Bare a => [(a, One)]
  | Quantified a q | Finished a q => [(a, q)]
  end.

(** The terms of a pattern, [None] for a quantifier with nothing to
    repeat (the syntax error of [new RegExp]). *)
Fixpoint parseTerms (pending : Pending) (ts : list Token)
  : option (list (Atom * Quant)) :=
  match ts with
  | [] => Some (flush pending)
  | TAtom a :: rest => app (flush pending) <$> parseTerms (Bare a) rest
  | TStar :: rest =>
      match pending with
      | Bare a => parseTerms (Quantified a Star) rest
      | _ => None
      end
  | TQuest :: rest =>
      match pending with
      | Bare a => parseTerms (Quantified a Opt) rest
      | Quantified a q => parseTerms (Finished a q) rest
      | _ => None
      end
  end.

Definition parsePieces (ts : list Token) : Parsed (list (Atom * Quant)) :=
  match parseTerms NoTerm ts with
  | Some ps => Pattern ps
  | None => SyntaxError
  end.

(** [new RegExp(source, "i")] on this grammar. *)
Definition compileRegExp (source : string) : Parsed (list (Atom * Quant)) :=
  match lexRegExp source with
  | Pattern ts => parsePieces ts
  | SyntaxError => SyntaxError
  | Unread => Unread
  end.

(** Line terminators, which [.] does not match. *)
Definition isLineTerminator (c : ascii) : bool :=
  let n := N_of_ascii c in ((n =? 10) || (n =? 13))%N.

Section Matcher.
Variable canon : ascii -> ascii.

(** One character against one atom, under the [i] flag. *)
Definition atomMatches (a : Atom) (c : ascii) : bool :=
  match a with
  | AnyChar => negb (isLineTerminator c)
  | Lit d => Ascii.eqb (canon d) (canon c)
  end.

(** Does the pattern match a prefix of [s]? *)
Fixpoint matchHere (ps : list (Atom * Quant)) (s : string) {struct ps} : bool :=
  match ps with
  | [] => true
  | (a, One) :: rest =>
      match s with
      | String c s' => atomMatches a c && matchHere rest s'
      | EmptyString => false
      end
  | (a, Opt) :: rest =>
      match s with
      | String c s' => (atomMatches a c && matchHere rest s') || matchHere rest s
      | EmptyString => matchHere rest s
      end
  | (a, Star) :: rest =>
      (fix star (t : string) : bool :=
         matchHere rest t
         || match t with
            | String c t' => atomMatches a c && star t'
            | EmptyString => false
            end) s
  end.

(** [regexp.test(s)] without the [g] or [y] flag: a match at some offset. *)
Fixpoint regexTest (ps : list (Atom * Quant)) (s : string) : bool :=
  matchHere ps s
  || match s with
     | String _ s' => regexTest ps s'
     | EmptyString => false
     end.

End Matcher.

(** A reference host for closed examples: decimal digit strings are read as
    numbers, UTC date-times are parsed, letters [a]-[z] are folded to upper
    case, and regular expressions are those of the grammar above.  Every theorem below
    is stated for an arbitrary host. *)
Definition digitValue (c : ascii) : option Z :=
  let n := N_of_ascii c in
  if ((48 <=? n) && (n <=? 57))%N then Some (Z.of_N n - 48) else None.

Fixpoint readDigits (acc : Z) (s : string) : option Z :=
  match s with
  | EmptyString => Some acc
  | String c rest =>
      match digitValue c with
      | Some d => readDigits (10 * acc + d) rest
      | None => None
      end
  end.

Definition upperAscii (c : ascii) : ascii :=
  let n := N_of_ascii c in
  if ((97 <=? n) && (n <=? 122))%N then ascii_of_N (n - 32) else c.

Fixpoint upperString (s : string) : string :=
  match s with
  | EmptyString => EmptyString
  | String c rest => String (upperAscii c) (upperString rest)
  end.

(** Days from 1970-01-01 to the civil date [y]-[m]-[d]. *)
Definition daysFromCivil (y m d : Z) : Z :=
  let y' := if m <=? 2 then y - 1 else y in
  let era := y' / 400 in
  let yoe := y' - era * 400 in
  let doy := (153 * (if 2 <? m then m - 3 else m + 9) + 2) / 5 + d - 1 in
  let doe := yoe * 365 + yoe / 4 - yoe / 100 + doy in
  era * 146097 + doe - 719468.

Definition daysInMonth (y m : Z) : Z :=
  if m =? 2 then
    if ((y mod 4 =? 0) && negb (y mod 100 =? 0)) || (y mod 400 =? 0) then 29 else 28
  else if (m =? 4) || (m =? 6) || (m =? 9) || (m =? 11) then 30 else 31.

(** The date-time format [YYYY-MM-DDTHH:mm:ssZ], in milliseconds since the
    epoch; any other string is no date for this host. *)
Definition parseIsoUtc (s : string) : JsNum :=
  let field i n := readDigits 0 (String.substring i n s) in
  let sep i c := String.eqb (String.substring i 1 s) c in
  match field 0%nat 4%nat, field 5%nat 2%nat, field 8%nat 2%nat,
        field 11%nat 2%nat, field 14%nat 2%nat, field 17%nat 2%nat with
  | Some y, Some mo, Some d, Some hh, Some mi, Some ss =>
      if (String.length s =? 20)%nat
         && sep 4%nat "-" && sep 7%nat "-" && sep 10%nat "T"
         && sep 13%nat ":" && sep 16%nat ":" && sep 19%nat "Z"
         && (1 <=? mo) && (mo <=? 12) && (1 <=? d) && (d <=? daysInMonth y mo)
         && (hh <=? 23) && (mi <=? 59) && (ss <=? 59)
      then Fin (inject_Z
                  ((((daysFromCivil y mo d * 24 + hh) * 60 + mi) * 60 + ss) * 1000))
      else NaN
  | _, _, _, _, _, _ => NaN
  end.

Definition sampleHost : Host := {|
  StringToNumber s :=
    match s with
    | EmptyString => Fin 0
    | _ => match readDigits 0 s with Some z => Fin (inject_Z z) | None => NaN end
    end;
  NumberToString n :=
    match n with
    | NaN => "NaN"
    | PosInf => "Infinity"
    | NegInf => "-Infinity"
    | Fin q => decimal (Z.to_N (Qfloor q))
    end;
  DateParse := parseIsoUtc;
  ToUpperCase := upperString;
  Canonicalize := upperAscii;
  RegExpI source :=
    match compileRegExp source with
    | Pattern ps => Some (regexTest upperAscii ps)
    | _ => None
    end
|}.


(* --------------------------------------------------------------------- *)
(** *** Queries and aggregates *)

(** The result of [getUsage()]. *)
Record Usage := mkUsage {
  totalRequests : Z;
  requestBytes : JsVal;
  requestOriginalBytes : JsVal;
  requestTruncated : JsVal;
  responseBytes : JsVal;
  responseOriginalBytes : JsVal;
  responseTruncated : JsVal;
  estimatedMemoryBytes : JsVal
}.

(** Stable insertion sort: [after x y] says the comparator puts [x] after
    [y].  For a consistent comparator this is the order [Array.prototype.sort]
    must produce. *)
Fixpoint insertSorted {A} (after : A -> A -> bool) (x : A) (l : list A) : list A :=
  match l with
  | [] => [x]
  | y :: rest => if after x y then y :: insertSorted after x rest else x :: l
  end.

Definition sortBy {A} (after : A -> A -> bool) (l : list A) : list A :=
  foldr (insertSorted after) [] l.

(** [entries.map((entry) => ({ ...entry }))]: one new object per entry, with
    the entry's own properties copied, property values as they are. *)
Fixpoint copyEntries (h : Heap) (entries : list loc) : list loc * Heap :=
  match entries with
  | [] => ([], h)
  | l :: rest =>
      let '(l', h1) := alloc h (deref h l) in
      let '(ls, h2) := copyEntries h1 rest in
      (l' :: ls, h2)
  end.

Section Queries.
Context {host : Host}.

(** [makeWildcardRegExp(pattern)]: [None] is the [null] of the [catch]
    branch, taken when [pattern] has no [replace] method or the source does
    not compile. *)
Definition makeWildcardRegExp (pattern : JsVal) : option (string -> bool) :=
  match pattern with
  | JStr p =>
      let escaped := escapeWildcard p in
      let wildcard := replaceStars escaped in
      match compileRegExp wildcard with
      | Pattern ps => Some (regexTest Canonicalize ps)
      | _ => None
      end
  | _ => None
  end.

(** The character class of [makeSearchRegExp]'s fallback. *)
Definition isSearchMeta : ascii -> bool := oneOf ".*+?^${}()|[]\".

Fixpoint escapeSearch (s : string) : string :=
  match s with
  | EmptyString => EmptyString
  | String c rest =>
      if isSearchMeta c then String "\" (String c (escapeSearch rest))
      else String c (escapeSearch rest)
  end.

(** [makeSearchRegExp(query)]: the query as a regular expression, and when
    that is a syntax error, the escaped query.  The fallback is not itself
    guarded. *)
Definition makeSearchRegExp (query : JsVal) : Completion (option (string -> bool)) :=
  if negb (truthy query) then Normal None
  else match RegExpI (toString query) with
       | Some test => Normal (Some test)
       | None =>
           match query with
           | JStr q =>
               match RegExpI (escapeSearch q) with
               | Some test => Normal (Some test)
               | None => Throw
               end
           | _ => Throw
           end
       end.

(** [normalizeTimestamp(value)]: [None] is [null]. *)
Definition normalizeTimestamp (value : JsVal) : option JsNum :=
  match value with
  | JNum n => Some n
  | JStr s =>
      match DateParse s with
      | NaN => None
      | time => Some time
      end
  | _ => None
  end.

(** [x.toUpperCase()] for the receivers that have the method. *)
Definition callToUpperCase (v : JsVal) : Completion string :=
  match v with
  | JStr s => Normal (ToUpperCase s)
  | _ => Throw
  end.

(** The comparator of [queryRequests], [b.timestamp - a.timestamp], read as
    "[a] goes after [b]": the difference is positive. *)
Definition newerFirst (h : Heap) (a b : loc) : bool :=
  numLt (Fin 0) (jsSub (getProp (deref h b) "timestamp")
                       (getProp (deref h a) "timestamp")).

(** The filter steps of [queryRequests], in source order. *)
Definition filterPageId (filters : Obj) (h : Heap) (results : list loc) : list loc :=
  let pageId := getProp filters "pageId" in
  if truthy pageId
  then filter (fun l => strictEq (getProp (deref h l) "pageId") pageId = true) results
  else results.

Definition filterUrlPattern (filters : Obj) (h : Heap) (results : list loc) : list loc :=
  let urlPattern := getProp filters "urlPattern" in
  if truthy urlPattern then
    match makeWildcardRegExp urlPattern with
    | Some test =>
        filter (fun l => test (toString (getProp (deref h l) "url")) = true) results
    | None => results
    end
  else results.

Definition filterMethod (filters : Obj) (h : Heap) (results : list loc)
  : Completion (list loc) :=
  let method := getProp filters "method" in
  if truthy method then
    filterC (fun l =>
               call mine <- callToUpperCase (jsOr (getProp (deref h l) "method") (JStr "")) ;
               call theirs <- callToUpperCase method ;
               Normal (String.eqb mine theirs))
            results
  else Normal results.

Definition filterStatus (filters : Obj) (h : Heap) (results : list loc) : list loc :=
  let status := getProp filters "status" in
  if isNumber status
  then filter (fun l => strictEq (getProp (deref h l) "status") status = true) results
  else results.

Definition filterResourceType (filters : Obj) (h : Heap) (results : list loc) : list loc :=
  let resourceType := getProp filters "resourceType" in
  if truthy resourceType
  then filter (fun l => strictEq (getProp (deref h l) "resourceType") resourceType = true)
              results
  else results.

Definition filterSince (filters : Obj) (h : Heap) (results : list loc) : list loc :=
  let since := getProp filters "since" in
  if truthy since then
    match normalizeTimestamp since with
    | Some sinceTs =>
        if truthy (JNum sinceTs)
        then filter (fun l =>
                       numLe sinceTs (toNumber (getProp (deref h l) "timestamp")) = true)
                    results
        else results
    | None => results
    end
  else results.

Definition filterSearch (filters : Obj) (h : Heap) (results : list loc)
  : Completion (list loc) :=
  let search := getProp filters "search" in
  if truthy search then
    call pattern <- makeSearchRegExp search ;
    match pattern with
    | Some test =>
        Normal (filter (fun l =>
                  let entry := deref h l in
                  test (toString (getProp entry "url"))
                  || (truthy (getProp entry "requestBody")
                      && test (toString (getProp entry "requestBody")))
                  || (truthy (getProp entry "responseBody")
                      && test (toString (getProp entry "responseBody")))
                  = true) results)
    | None => Normal results
    end
  else Normal results.

(** [results.slice(0, limit)] when [limit] is a number above zero. *)
Definition applyLimit (limit : JsVal) (results : list loc) : list loc :=
  match limit with
  | JNum n =>
      if numLt (Fin 0) n then
        match n with
        | Fin q => take (Z.to_nat (truncQ q)) results
        | _ => results
        end
      else results
  | _ => results
  end.

(** [queryRequests(filters)]: the filtered total and the addresses of the
    copies, in result order. *)
Definition queryRequests (filters : Obj) (st : RequestStorage) (h : Heap)
  : Completion (nat * list loc) * Heap :=
  let r0 := mapValues (requests st) in
  let r1 := filterPageId filters h r0 in
  let r2 := filterUrlPattern filters h r1 in
  match filterMethod filters h r2 with
  | Throw => (Throw, h)
  | Normal r3 =>
      let r4 := filterStatus filters h r3 in
      let r5 := filterResourceType filters h r4 in
      let r6 := filterSince filters h r5 in
      match filterSearch filters h r6 with
      | Throw => (Throw, h)
      | Normal r7 =>
          let sorted := sortBy (newerFirst h) r7 in
          let total := length sorted in
          let limited := applyLimit (getProp filters "limit") sorted in
          let '(copies, h') := copyEntries h limited in
          (Normal (total, copies), h')
      end
  end.

(** [clearRequests(options)]: the new store and the number removed. *)
Definition clearRequests (options : Obj) (st : RequestStorage) (h : Heap)
  : RequestStorage * nat :=
  let pageId := getProp options "pageId" in
  if negb (truthy pageId) then
    ({| requests := []; requestCounter := requestCounter st;
        activePageMonitors := activePageMonitors st |},
     length (requests st))
  else
    let gone (e : string * loc) := strictEq (getProp (deref h (snd e)) "pageId") pageId in
    ({| requests := filter (fun e => gone e = false) (requests st);
        requestCounter := requestCounter st;
        activePageMonitors := activePageMonitors st |},
     length (filter (fun e => gone e = true) (requests st))).

(** One round of the loop of [getUsage]. *)
Definition addUsage (entry : Obj) (u : Usage) : Usage :=
  let reqSaved := jsOr (getProp entry "requestBodyBytes") (JInt 0) in
  let reqOriginal := jsNullish (getProp entry "requestBodySize") reqSaved in
  let resSaved := jsOr (getProp entry "responseBodyBytes") (JInt 0) in
  let resOriginal := jsNullish (getProp entry "responseBodySize") resSaved in
  {| totalRequests := totalRequests u;
     requestBytes := jsAdd (requestBytes u) reqSaved;
     requestOriginalBytes := jsAdd (requestOriginalBytes u) reqOriginal;
     requestTruncated :=
       if truthy (getProp entry "requestBodyTruncated")
       then jsIncr (requestTruncated u) else requestTruncated u;
     responseBytes := jsAdd (responseBytes u) resSaved;
     responseOriginalBytes := jsAdd (responseOriginalBytes u) resOriginal;
     responseTruncated :=
       if truthy (getProp entry "responseBodyTruncated")
       then jsIncr (responseTruncated u) else responseTruncated u;
     estimatedMemoryBytes := estimatedMemoryBytes u |}.

(** [getUsage()]. *)
Definition getUsage (st : RequestStorage) (h : Heap) : Usage :=
  let zero := {| totalRequests := 0; requestBytes := JInt 0;
                 requestOriginalBytes := JInt 0; requestTruncated := JInt 0;
                 responseBytes := JInt 0; responseOriginalBytes := JInt 0;
                 responseTruncated := JInt 0; estimatedMemoryBytes := JInt 0 |} in
  let u := fold_left (fun u l => addUsage (deref h l) u) (mapValues (requests st)) zero in
  {| totalRequests := Z.of_nat (length (requests st));
     requestBytes := requestBytes u;
     requestOriginalBytes := requestOriginalBytes u;
     requestTruncated := requestTruncated u;
     responseBytes := responseBytes u;
     responseOriginalBytes := responseOriginalBytes u;
     responseTruncated := responseTruncated u;
     estimatedMemoryBytes := jsAdd (requestBytes u) (responseBytes u) |}.

End Queries.

(** [registerPageMonitor(pageId, monitorId)]. *)
Definition registerPageMonitor (pageId monitorId : string) (st : RequestStorage)
  : RequestStorage :=
  {| requests := requests st; requestCounter := requestCounter st;
     activePageMonitors := mapSet (activePageMonitors st) pageId monitorId |}.

(** [unregisterPageMonitor(pageId)]. *)
Definition unregisterPageMonitor (pageId : string) (st : RequestStorage)
  : RequestStorage :=
  {| requests := requests st; requestCounter := requestCounter st;
     activePageMonitors := mapDelete (activePageMonitors st) pageId |}.

(** [reset()]. *)
Definition reset (st : RequestStorage) : RequestStorage := newStorage.

(* ===================================================================== *)
(** ** pageTracker.js *)
(* ===================================================================== *)

(** The live browser objects are outside this repository; a handler sees
    them through what their accessors do when called: return or throw. *)

(** A page at the moment a handler looks at it: [page.url()], and
    [Tab.forPage(page)] followed, when there is a tab, by [tab.lastTitle()]. *)
Record PageObs := mkPageObs {
  pg_url : Completion JsVal;
  pg_tab : Completion (option (Completion JsVal))
}.

(** A request object: its identity and its accessors.  [rq_frame] is
    [request.frame?.()] followed, when there is a frame, by [frame.url()];
    [rq_headers] is [request.headers?.()], [None] for [undefined];
    [rq_failureText] is [request.failure()?.errorText]. *)
Record PwRequest := mkRequest {
  rq_key : nat;
  rq_url : Completion JsVal;
  rq_method : Completion JsVal;
  rq_resourceType : Completion JsVal;
  rq_isNavigationRequest : Completion JsVal;
  rq_frame : Completion (option (Completion JsVal));
  rq_headers : Completion (option (gmap string string));
  rq_postData : Completion JsVal;
  rq_failureText : Completion JsVal
}.

(** A response object.  [rs_text] is the outcome of awaiting
    [response.text()]: the value, or the text [error?.message ||
    String(error)] of the rejection.  [rs_timing] is [response.timing()],
    [None] for a falsy result. *)
Record PwResponse := mkResponse {
  rs_request : Completion nat;
  rs_headers : Completion (option (gmap string string));
  rs_status : Completion JsVal;
  rs_statusText : Completion JsVal;
  rs_text : JsVal + string;
  rs_timing : Completion (option (gmap string JsVal))
}.

(** The fields of a [PageTracker] instance. *)
Record PageTracker := mkTracker {
  context : nat;
  page : nat;
  pageId : string;
  storage : nat;
  maxBodyLength : Z;
  maxPostDataLength : Z;
  monitorId : string;
  _disposed : bool;
  latestUrl : JsVal;
  latestTitle : JsVal
}.

(** The two byte ceilings of state.js. *)
Record Limits := mkLimits {
  maxRequestBodyBytes : JsNum;
  maxResponseBodyBytes : JsNum
}.

(** The options object of [new PageTracker(options)].  The constructor reads
    [maxBodyLength] and [maxPostDataLength]; [limits] is the property
    [attachPage] passes. *)
Record TrackerOptions := mkOptions {
  opt_context : nat;
  opt_page : nat;
  opt_pageId : string;
  opt_storage : nat;
  opt_limits : option Limits;
  opt_maxBodyLength : option Z;
  opt_maxPostDataLength : option Z
}.

(** [safePageUrl(page)]. *)
Definition safePageUrl (obs : PageObs) : JsVal :=
  match pg_url obs with
  | Normal u => u
  | Throw => JStr "about:blank"
  end.

(** [safePageTitle(page)]. *)
Definition safePageTitle (obs : PageObs) : JsVal :=
  match pg_tab obs with
  | Normal (Some lastTitle) =>
      match lastTitle with Normal t => t | Throw => JStr "" end
  | Normal None =>
      match pg_url obs with Normal u => u | Throw => JStr "" end
  | Throw => JStr ""
  end.

(** [safeFrameUrl(request)]. *)
Definition safeFrameUrl (request : PwRequest) : JsVal :=
  match rq_frame request with
  | Normal (Some (Normal u)) => u
  | _ => JNull
  end.

(** [safeClone(value)] of a header object: [null] for a missing one, else a
    new object with the same entries ([JSON.parse(JSON.stringify(value))]). *)
Definition safeClone (value : option (gmap string string)) (h : Heap) : JsVal * Heap :=
  match value with
  | None => (JNull, h)
  | Some headers =>
      let '(l, h') := alloc h (JStr <$> headers) in (JRef l, h')
  end.

(** [getHeader(headers, name)] on a plain header object, for a lower-case
    [name]. *)
Definition getHeader (headers : option (gmap string string)) (name : string) : JsVal :=
  match headers with
  | None => JNull
  | Some hs => match hs !! name with Some v => JStr v | None => JNull end
  end.

(** [safeTruncate(producer, maxLength)]: the value and the truncated flag. *)
Definition safeTruncate (produced : Completion JsVal) (maxLength : Z) : JsVal * bool :=
  match produced with
  | Throw => (JNull, false)
  | Normal value =>
      if negb (truthy value) || negb (isString value)
      then (jsNullish value JNull, false)
      else match value with
           | JStr s =>
               if maxLength <? strLength s then (JStr (sliceTo s maxLength), true)
               else (value, false)
           | _ => (jsNullish value JNull, false)
           end
  end.

(** [_readResponseBody(response, contentType)]: body, truncated, error. *)
Definition _readResponseBody (tracker : PageTracker) (response : PwResponse)
  : JsVal * bool * JsVal :=
  match rs_text response with
  | inr message => (JNull, false, JStr message)
  | inl (JStr text) =>
      let truncated := maxBodyLength tracker <? strLength text in
      let body := if truncated then sliceTo text (maxBodyLength tracker) else text in
      (JStr body, truncated, JNull)
  | inl _ => (JNull, false, JNull)
  end.

Section Timing.
Context {host : Host}.

(** [safeTiming(response)]: [null], or the address of the new timing object. *)
Definition safeTiming (response : PwResponse) (h : Heap) : JsVal * Heap :=
  match rs_timing response with
  | Throw | Normal None => (JNull, h)
  | Normal (Some timing) =>
      let startTime := jsOr (getProp timing "startTime") (JInt 0) in
      let normalize (value : JsVal) : JsVal :=
        match value with
        | JNum n => if numLe (Fin 0) n then JNum (jsSub value startTime) else JNull
        | _ => JNull
        end in
      let duration :=
        if isNumber (getProp timing "responseEnd") && isNumber startTime
        then JNum (jsSub (getProp timing "responseEnd") startTime) else JNull in
      let o : Obj :=
        <["startTime" := startTime]>
        (<["domainLookup" := normalize (getProp timing "domainLookup")]>
        (<["connectStart" := normalize (getProp timing "connectStart")]>
        (<["connectEnd" := normalize (getProp timing "connectEnd")]>
        (<["requestStart" := normalize (getProp timing "requestStart")]>
        (<["responseStart" := normalize (getProp timing "responseStart")]>
        (<["responseEnd" := normalize (getProp timing "responseEnd")]>
        (<["duration" := duration]> ∅))))))) in
      let '(l, h') := alloc h o in (JRef l, h')
  end.

End Timing.

(* ===================================================================== *)
(** ** The process state *)
(* ===================================================================== *)

(** The value [contextState] holds for a context: the address of its
    [RequestStorage] and its [trackers] map, page to tracker address. *)
Record ContextState := mkContextState {
  cs_storage : nat;
  cs_trackers : list (nat * nat)
}.

(** Everything the three modules keep: the object heap, the
    [RequestStorage] and [PageTracker] instances by address, the module
    variables of state.js ([contextState], [pageCounter], [currentLimits])
    and of pageTracker.js ([trackerCounter]), the handlers subscribed on
    pages (page, event, tracker; in subscription order), and the identifier
    a handler attaches to a request object under [requestIdSymbol]. *)
Record World := mkWorld {
  heap : Heap;
  storages : list RequestStorage;
  trackers : list PageTracker;
  contextState : list (nat * ContextState);
  pageCounter : N;
  currentLimits : Limits;
  trackerCounter : N;
  listeners : list (nat * string * nat);
  requestIds : list (nat * JsVal)
}.

Definition KB : Z := 1024.

(** [DEFAULT_LIMITS]. *)
Definition DEFAULT_LIMITS : Limits :=
  {| maxRequestBodyBytes := Fin (inject_Z (32 * KB));
     maxResponseBodyBytes := Fin (inject_Z (64 * KB)) |}.

(** The state when the modules have just been loaded. *)
Definition initialWorld : World :=
  {| heap := []; storages := []; trackers := []; contextState := [];
     pageCounter := 0; currentLimits := DEFAULT_LIMITS; trackerCounter := 0;
     listeners := []; requestIds := [] |}.

Definition getStorage (w : World) (s : nat) : RequestStorage :=
  default newStorage (storages w !! s).

Definition getTracker (w : World) (t : nat) : option PageTracker := trackers w !! t.

Definition setHeap (h : Heap) (w : World) : World :=
  {| heap := h; storages := storages w; trackers := trackers w;
     contextState := contextState w; pageCounter := pageCounter w;
     currentLimits := currentLimits w; trackerCounter := trackerCounter w;
     listeners := listeners w; requestIds := requestIds w |}.

Definition setStorage (s : nat) (st : RequestStorage) (w : World) : World :=
  {| heap := heap w; storages := <[s := st]> (storages w); trackers := trackers w;
     contextState := contextState w; pageCounter := pageCounter w;
     currentLimits := currentLimits w; trackerCounter := trackerCounter w;
     listeners := listeners w; requestIds := requestIds w |}.

Definition setTracker (t : nat) (tr : PageTracker) (w : World) : World :=
  {| heap := heap w; storages := storages w; trackers := <[t := tr]> (trackers w);
     contextState := contextState w; pageCounter := pageCounter w;
     currentLimits := currentLimits w; trackerCounter := trackerCounter w;
     listeners := listeners w; requestIds := requestIds w |}.

Definition setListeners (ls : list (nat * string * nat)) (w : World) : World :=
  {| heap := heap w; storages := storages w; trackers := trackers w;
     contextState := contextState w; pageCounter := pageCounter w;
     currentLimits := currentLimits w; trackerCounter := trackerCounter w;
     listeners := ls; requestIds := requestIds w |}.

Definition setContextState (cs : list (nat * ContextState)) (w : World) : World :=
  {| heap := heap w; storages := storages w; trackers := trackers w;
     contextState := cs; pageCounter := pageCounter w;
     currentLimits := currentLimits w; trackerCounter := trackerCounter w;
     listeners := listeners w; requestIds := requestIds w |}.

Definition setRequestIds (ids : list (nat * JsVal)) (w : World) : World :=
  {| heap := heap w; storages := storages w; trackers := trackers w;
     contextState := contextState w; pageCounter := pageCounter w;
     currentLimits := currentLimits w; trackerCounter := trackerCounter w;
     listeners := listeners w; requestIds := ids |}.

(** [page.on(event, handler)] for a handler bound to [tracker]. *)
Definition pageOn (pg : nat) (event : string) (tracker : nat) (w : World) : World :=
  setListeners (listeners w ++ [(pg, event, tracker)]) w.

(** Removing the most recently added instance of a listener. *)
Fixpoint removeLast {A} `{EqDecision A} (x : A) (l : list A) : list A :=
  match l with
  | [] => []
  | y :: rest =>
      if decide (y = x) then
        if bool_decide (x ∈ rest) then y :: removeLast x rest else rest
      else y :: removeLast x rest
  end.

(** [page.off(event, handler)]. *)
Definition pageOff (pg : nat) (event : string) (tracker : nat) (w : World) : World :=
  setListeners (removeLast (pg, event, tracker) (listeners w)) w.

(** [new PageTracker(options)] with the page as [obs] shows it: the address
    of the new tracker and the state after the constructor. *)
Definition newPageTracker (options : TrackerOptions) (obs : PageObs) (w : World)
  : nat * World :=
  let counter := (trackerCounter w + 1)%N in
  let tracker :=
    {| context := opt_context options;
       page := opt_page options;
       pageId := opt_pageId options;
       storage := opt_storage options;
       maxBodyLength := default (64 * 1024) (opt_maxBodyLength options);
       maxPostDataLength := default (32 * 1024) (opt_maxPostDataLength options);
       monitorId := ("monitor-" ++ decimal counter)%string;
       _disposed := false;
       latestUrl := safePageUrl obs;
       latestTitle := safePageTitle obs |} in
  let t := length (trackers w) in
  let w1 :=
    {| heap := heap w; storages := storages w; trackers := trackers w ++ [tracker];
       contextState := contextState w; pageCounter := pageCounter w;
       currentLimits := currentLimits w; trackerCounter := counter;
       listeners := listeners w; requestIds := requestIds w |} in
  let w2 := pageOn (page tracker) "request" t w1 in
  let w3 := pageOn (page tracker) "response" t w2 in
  let w4 := pageOn (page tracker) "requestfailed" t w3 in
  (t, setStorage (storage tracker)
        (registerPageMonitor (pageId tracker) (monitorId tracker)
           (getStorage w4 (storage tracker))) w4).

(** [tracker.dispose()]. *)
Definition dispose (t : nat) (w : World) : World :=
  match getTracker w t with
  | None => w
  | Some tracker =>
      if _disposed tracker then w
      else
        let tracker' :=
          {| context := context tracker; page := page tracker;
             pageId := pageId tracker; storage := storage tracker;
             maxBodyLength := maxBodyLength tracker;
             maxPostDataLength := maxPostDataLength tracker;
             monitorId := monitorId tracker; _disposed := true;
             latestUrl := latestUrl tracker; latestTitle := latestTitle tracker |} in
        let w1 := setTracker t tracker' w in
        let w2 := pageOff (page tracker) "request" t w1 in
        let w3 := pageOff (page tracker) "response" t w2 in
        let w4 := pageOff (page tracker) "requestfailed" t w3 in
        setStorage (storage tracker)
          (unregisterPageMonitor (pageId tracker) (getStorage w4 (storage tracker))) w4
  end.

(** The two assignments every handler starts with. *)
Definition observePage (t : nat) (obs : PageObs) (w : World) : World :=
  match getTracker w t with
  | None => w
  | Some tracker =>
      setTracker t
        {| context := context tracker; page := page tracker;
           pageId := pageId tracker; storage := storage tracker;
           maxBodyLength := maxBodyLength tracker;
           maxPostDataLength := maxPostDataLength tracker;
           monitorId := monitorId tracker; _disposed := _disposed tracker;
           latestUrl := safePageUrl obs; latestTitle := safePageTitle obs |} w
  end.

Section Handlers.
Context {host : Host}.

(** The object literal [_onRequest] passes to [saveRequest]. *)
Definition requestData (tracker : PageTracker)
    (url method resourceType isNavigationRequest frameUrl requestHeaders : JsVal)
    (requestBody : JsVal) (requestBodyTruncated : bool) : Obj :=
  list_to_map
    [ ("pageId", JStr (pageId tracker));
      ("pageUrl", latestUrl tracker);
      ("pageTitle", latestTitle tracker);
      ("url", url);
      ("method", method);
      ("resourceType", resourceType);
      ("isNavigationRequest", isNavigationRequest);
      ("frameUrl", frameUrl);
      ("requestHeaders", requestHeaders);
      ("requestBody", requestBody);
      ("requestBodyTruncated", JBool requestBodyTruncated);
      ("status", JNull);
      ("statusText", JNull);
      ("responseHeaders", JNull);
      ("responseBody", JNull);
      ("responseBodyTruncated", JBool false);
      ("responseBodyError", JNull);
      ("timing", JNull);
      ("error", JNull) ].

(** [_onRequest(request)] on tracker [t] at time [now].  Whatever throws is
    caught by the handler, which then only logs. *)
Definition _onRequest (t : nat) (now : Z) (obs : PageObs) (request : PwRequest)
    (w : World) : World :=
  let w1 := observePage t obs w in
  match getTracker w1 t with
  | None => w1
  | Some tracker =>
      let '(requestBody, requestBodyTruncated) :=
        safeTruncate (rq_postData request) (maxPostDataLength tracker) in
      match rq_url request, rq_method request, rq_resourceType request,
            rq_isNavigationRequest request, rq_headers request with
      | Normal url, Normal method, Normal resourceType,
        Normal isNavigationRequest, Normal headers =>
          let '(requestHeaders, h1) := safeClone headers (heap w1) in
          let data :=
            requestData tracker url method resourceType isNavigationRequest
              (safeFrameUrl request) requestHeaders requestBody requestBodyTruncated in
          let '(saved, st', h2) :=
            saveRequest now data (getStorage w1 (storage tracker)) h1 in
          let w2 := setHeap h2 (setStorage (storage tracker) st' w1) in
          match saved with
          | Normal record =>
              setRequestIds
                (mapSet (requestIds w2) (rq_key request) (getProp (deref h2 record) "id"))
                w2
          | Throw => w2
          end
      | _, _, _, _, _ => w1
      end
  end.

(** [this.storage.updateRequest(requestId, patch)] for the value found under
    [requestIdSymbol]: only a string can be a key of [requests]. *)
Definition updateStored (s : nat) (requestId : JsVal) (patch : Obj) (w : World) : World :=
  match requestId with
  | JStr id => setHeap (snd (updateRequest id patch (getStorage w s) (heap w))) w
  | _ => w
  end.

(** What [_onResponse] holds while it awaits the body. *)
Record PendingResponse := mkPending {
  pr_requestId : JsVal;
  pr_contentType : JsVal;
  pr_status : JsVal;
  pr_statusText : JsVal
}.

(** [_onResponse(response)] up to the [await]: [None] when the handler has
    already finished (no identifier on the request, or something threw). *)
Definition _onResponse_begin (t : nat) (obs : PageObs) (response : PwResponse)
    (w : World) : option PendingResponse * World :=
  let w1 := observePage t obs w in
  match rs_request response with
  | Throw => (None, w1)
  | Normal key =>
      let requestId := default JUndefined (mapGet (requestIds w1) key) in
      if negb (truthy requestId) then (None, w1)
      else match rs_headers response, rs_status response, rs_statusText response with
           | Normal headers, Normal status, Normal statusText =>
               (Some {| pr_requestId := requestId;
                        pr_contentType := getHeader headers "content-type";
                        pr_status := status;
                        pr_statusText := statusText |}, w1)
           | _, _, _ => (None, w1)
           end
  end.

(** The object literal [_onResponse] passes to [updateRequest]. *)
Definition responsePatch (p : PendingResponse) (responseHeaders : JsVal)
    (body : JsVal) (truncated : bool) (bodyError timing durationMs : JsVal) : Obj :=
  list_to_map
    [ ("status", pr_status p);
      ("statusText", pr_statusText p);
      ("responseHeaders", responseHeaders);
      ("responseBody", body);
      ("responseBodyTruncated", JBool truncated);
      ("responseBodyError", bodyError);
      ("contentType", pr_contentType p);
      ("timing", timing);
      ("durationMs", durationMs) ].

(** [_onResponse(response)] from the [await] on. *)
Definition _onResponse_resume (t : nat) (response : PwResponse) (p : PendingResponse)
    (w : World) : World :=
  match getTracker w t with
  | None => w
  | Some tracker =>
      let '(body, truncated, bodyError) := _readResponseBody tracker response in
      let '(timing, h1) := safeTiming response (heap w) in
      let durationMs :=
        match timing with
        | JRef l => jsNullish (getProp (deref h1 l) "duration") JNull
        | _ => JNull
        end in
      match rs_headers response with
      | Throw => setHeap h1 w
      | Normal headers =>
          let '(responseHeaders, h2) := safeClone headers h1 in
          updateStored (storage tracker) (pr_requestId p)
            (responsePatch p responseHeaders body truncated bodyError timing durationMs)
            (setHeap h2 w)
      end
  end.

(** [_onResponse(response)] when nothing else runs during the [await]. *)
Definition _onResponse (t : nat) (obs : PageObs) (response : PwResponse)
    (w : World) : World :=
  match _onResponse_begin t obs response w with
  | (Some p, w1) => _onResponse_resume t response p w1
  | (None, w1) => w1
  end.

(** [_onRequestFailed(request)]. *)
Definition _onRequestFailed (t : nat) (obs : PageObs) (request : PwRequest)
    (w : World) : World :=
  let w1 := observePage t obs w in
  match getTracker w1 t with
  | None => w1
  | Some tracker =>
      let requestId := default JUndefined (mapGet (requestIds w1) (rq_key request)) in
      if negb (truthy requestId) then w1
      else match rq_failureText request with
           | Throw => w1
           | Normal text =>
               updateStored (storage tracker) requestId
                 (list_to_map
                    [ ("status", JInt 0);
                      ("statusText", JStr "FAILED");
                      ("error", jsOr text (JStr "Request failed")) ])
                 w1
           end
  end.

End Handlers.

(* ===================================================================== *)
(** ** state.js *)
(* ===================================================================== *)

(** [ensureContextState(context)]: the state of the context, made on first
    use. *)
Definition ensureContextState (ctx : nat) (w : World) : ContextState * World :=
  match mapGet (contextState w) ctx with
  | Some state => (state, w)
  | None =>
      let state := {| cs_storage := length (storages w); cs_trackers := [] |} in
      (state,
       {| heap := heap w; storages := storages w ++ [newStorage];
          trackers := trackers w;
          contextState := mapSet (contextState w) ctx state;
          pageCounter := pageCounter w; currentLimits := currentLimits w;
          trackerCounter := trackerCounter w; listeners := listeners w;
          requestIds := requestIds w |})
  end.

(** [attachPage(context, page)]: the tracker and the state afterwards. *)
Definition attachPage (ctx pg : nat) (obs : PageObs) (w : World) : nat * World :=
  let '(state, w1) := ensureContextState ctx w in
  match mapGet (cs_trackers state) pg with
  | Some tracker => (tracker, w1)
  | None =>
      let counter := (pageCounter w1 + 1)%N in
      let w2 :=
        {| heap := heap w1; storages := storages w1; trackers := trackers w1;
           contextState := contextState w1; pageCounter := counter;
           currentLimits := currentLimits w1; trackerCounter := trackerCounter w1;
           listeners := listeners w1; requestIds := requestIds w1 |} in
      let '(tracker, w3) :=
        newPageTracker
          {| opt_context := ctx; opt_page := pg;
             opt_pageId := ("page-" ++ decimal counter)%string;
             opt_storage := cs_storage state;
             opt_limits := Some (currentLimits w2);
             opt_maxBodyLength := None;
             opt_maxPostDataLength := None |} obs w2 in
      (tracker,
       setContextState
         (mapSet (contextState w3) ctx
            {| cs_storage := cs_storage state;
               cs_trackers := mapSet (cs_trackers state) pg tracker |}) w3)
  end.

(** [detachPage(context, page)]. *)
Definition detachPage (ctx pg : nat) (w : World) : World :=
  match mapGet (contextState w) ctx with
  | None => w
  | Some state =>
      match mapGet (cs_trackers state) pg with
      | None => w
      | Some tracker =>
          let w1 := dispose tracker w in
          setContextState
            (mapSet (contextState w1) ctx
               {| cs_storage := cs_storage state;
                  cs_trackers := mapDelete (cs_trackers state) pg |}) w1
      end
  end.

(** [resetContext(context)]. *)
Definition resetContext (ctx : nat) (w : World) : World :=
  match mapGet (contextState w) ctx with
  | None => w
  | Some state =>
      let w1 := fold_left (fun w t => dispose t w) (mapValues (cs_trackers state)) w in
      let w2 :=
        setContextState
          (mapSet (contextState w1) ctx
             {| cs_storage := cs_storage state; cs_trackers := [] |}) w1 in
      setStorage (cs_storage state) (reset (getStorage w2 (cs_storage state))) w2
  end.

(** [getRequestStorage(context)]. *)
Definition getRequestStorage (ctx : nat) (w : World) : nat * World :=
  let '(state, w1) := ensureContextState ctx w in (cs_storage state, w1).

Section LimitsConfiguration.
Context {host : Host}.

(** [parseLimitOption(value)]: [None] is [undefined]. *)
Definition parseLimitOption (value : JsVal) : option JsNum :=
  if isNullish value then None
  else
    let number := toNumber value in
    if negb (numIsFinite number) || numLe number (Fin 0) then None
    else Some (mathRound number).

(** [configureNetworkLimits(options)]. *)
Definition configureNetworkLimits (options : Obj) (w : World) : World :=
  let next := currentLimits w in
  let next1 :=
    if negb (strictEq (getProp options "maxRequestBodyKB") JUndefined) then
      match parseLimitOption (getProp options "maxRequestBodyKB") with
      | Some parsed =>
          {| maxRequestBodyBytes := numMul parsed (Fin (inject_Z KB));
             maxResponseBodyBytes := maxResponseBodyBytes next |}
      | None => next
      end
    else next in
  let next2 :=
    if negb (strictEq (getProp options "maxResponseBodyKB") JUndefined) then
      match parseLimitOption (getProp options "maxResponseBodyKB") with
      | Some parsed =>
          {| maxRequestBodyBytes := maxRequestBodyBytes next1;
             maxResponseBodyBytes := numMul parsed (Fin (inject_Z KB)) |}
      | None => next1
      end
    else next1 in
  {| heap := heap w; storages := storages w; trackers := trackers w;
     contextState := contextState w; pageCounter := pageCounter w;
     currentLimits := next2; trackerCounter := trackerCounter w;
     listeners := listeners w; requestIds := requestIds w |}.

(** [configureNetworkLimitsFromEnv()], given the two environment variables
    ([None] when unset). *)
Definition configureNetworkLimitsFromEnv (requestEnv responseEnv : option string)
    (w : World) : World :=
  let o1 : Obj :=
    match requestEnv with
    | Some v => <["maxRequestBodyKB" := JStr v]> ∅
    | None => ∅
    end in
  let options : Obj :=
    match responseEnv with
    | Some v => <["maxResponseBodyKB" := JStr v]> o1
    | None => o1
    end in
  if decide (options = ∅) then w else configureNetworkLimits options w.

End LimitsConfiguration.

(** [getLimits()]. *)
Definition getLimits (w : World) : Limits := currentLimits w.

(* ===================================================================== *)
(** ** The vocabulary of the properties *)
(* ===================================================================== *)

(** *** Stores and their records *)

(** The invariant of a store and the heap it lives in: every record address
    is allocated, and every identifier was issued by the counter. *)
Definition storeWf (st : RequestStorage) (h : Heap) : Prop :=
  ∀ id l, (id, l) ∈ requests st →
    (l < length h)%nat
    ∧ ∃ n, (n ≤ requestCounter st)%N ∧ id = ("req-" ++ decimal n)%string.

(** No stored record refers to an address that is not allocated. *)
Definition storeClosed (st : RequestStorage) (h : Heap) : Prop :=
  ∀ l, l ∈ mapValues (requests st) →
       ∀ k a, deref h l !! k = Some (JRef a) → (a < length h)%nat.

(** The record stored under [id] in storage [s], as an object. *)
Definition storedRecord (w : World) (s : nat) (id : string) : Obj :=
  match mapGet (requests (getStorage w s)) id with
  | Some l => deref (heap w) l
  | None => ∅
  end.

(** The count [saveRequest] ends with: the caller's when it is a number,
    else the measured length of the body. *)
Definition savedBytes (record : Obj) (bodyKey bytesKey : string) : Completion JsVal :=
  if isNumber (getProp record bytesKey) then Normal (getProp record bytesKey)
  else bodyBytes (getProp record bodyKey).

(** The size [saveRequest] ends with: the caller's when it is a number, else
    the count. *)
Definition savedSize (record : Obj) (bytes : JsVal) (sizeKey : string) : JsVal :=
  if isNumber (getProp record sizeKey) then getProp record sizeKey else bytes.

(** *** Byte counts *)







(** *** Capture times *)

(** The capture time of a record, when it is a finite number. *)
Definition timestampOf (o : Obj) : option Q :=
  match getProp o "timestamp" with
  | JNum (Fin q) => Some q
  | _ => None
  end.

(** [o1] may stand before [o2] in a most-recent-first list. *)
Definition newestFirst (o1 o2 : Obj) : Prop :=
  ∃ q1 q2, timestampOf o1 = Some q1 ∧ timestampOf o2 = Some q2 ∧ (q2 <= q1)%Q.

(** [o] was captured at or after the bound [q]. *)
Definition atOrAfter (q : Q) (o : Obj) : bool :=
  match timestampOf o with
  | Some t => Qle_bool q t
  | None => false
  end.

(** Every stored record has a finite number as capture time. *)
Definition timedStore (st : RequestStorage) (h : Heap) : Prop :=
  ∀ l, l ∈ mapValues (requests st) → ∃ q, timestampOf (deref h l) = Some q.

(** Every stored record has milliseconds since the epoch as capture time. *)
Definition epochStore (st : RequestStorage) (h : Heap) : Prop :=
  ∀ l, l ∈ mapValues (requests st) →
       ∃ q, timestampOf (deref h l) = Some q ∧ (0 <= q)%Q.

(** *** Selection *)

Section Selection.
Context {host : Host}.

(** The records a query selects, before [limit] is looked at: the filters
    of [queryRequests] in source order, then the sort. *)
Definition selectRequests (filters : Obj) (st : RequestStorage) (h : Heap)
  : Completion (list loc) :=
  let r2 := filterUrlPattern filters h
              (filterPageId filters h (mapValues (requests st))) in
  match filterMethod filters h r2 with
  | Throw => Throw
  | Normal r3 =>
      let r6 := filterSince filters h
                  (filterResourceType filters h (filterStatus filters h r3)) in
      match filterSearch filters h r6 with
      | Throw => Throw
      | Normal r7 => Normal (sortBy (newerFirst h) r7)
      end
  end.

End Selection.

(** *** Callers and what they can reach *)

(** [o.k = v] on the object at [l], as a caller of the store may do it. *)
Definition assignProp (h : Heap) (l : loc) (k : string) (v : JsVal) : Heap :=
  <[l := <[k := v]> (deref h l)]> h.

(** The objects a record refers to, by property name. *)
Definition nestedObjects (h : Heap) (o : Obj) : gmap string Obj :=
  omap (fun v => match v with JRef a => Some (deref h a) | _ => None end) o.

(** The state the store holds: for each identifier the record's properties
    and the properties of the objects the record refers to (its header and
    timing objects). *)
Definition storedState (st : RequestStorage) (h : Heap)
  : list (string * Obj * gmap string Obj) :=
  map (fun e => (e.1, deref h e.2, nestedObjects h (deref h e.2))) (requests st).

(** *** Wildcards *)

(** Does [c] occur in [s]? *)
Fixpoint containsChar (c : ascii) (s : string) : bool :=
  match s with
  | EmptyString => false
  | String d rest => Ascii.eqb d c || containsChar c rest
  end.

(** The pattern [makeWildcardRegExp] compiles a wildcard without [?] to: a
    star for each [*], one literal for each other character. *)
Fixpoint piecesOf (p : string) : list (Atom * Quant) :=
  match p with
  | EmptyString => []
  | String c rest =>
      (if Ascii.eqb c "*" then (AnyChar, Star) else (Lit c, One)) :: piecesOf rest
  end.

(** The same pattern as the lexer hands it over. *)
Fixpoint tokensOf (p : string) : list Token :=
  match p with
  | EmptyString => []
  | String c rest =>
      if Ascii.eqb c "*" then TAtom AnyChar :: TStar :: tokensOf rest
      else TAtom (Lit c) :: tokensOf rest
  end.

(** The wildcard reading of a pattern, in the words of the specification:
    [*] stands for any run of characters (of one line), every other
    character for itself, letter case apart.  [wildcardMatches canon p t]:
    the whole of [t] is an instance of [p]. *)
Inductive wildcardMatches (canon : ascii → ascii) : string → string → Prop :=
  | wm_end : wildcardMatches canon "" ""
  | wm_star_none p t :
      wildcardMatches canon p t → wildcardMatches canon (String "*" p) t
  | wm_star_more p c t :
      isLineTerminator c = false →
      wildcardMatches canon (String "*" p) t →
      wildcardMatches canon (String "*" p) (String c t)
  | wm_char d p c t :
      d ≠ "*"%char → canon d = canon c →
      wildcardMatches canon p t →
      wildcardMatches canon (String d p) (String c t).

(** *** Inputs for the closed examples *)

(** A string of [n] copies of one character. *)
Fixpoint repeatChar (n : nat) (c : ascii) : string :=
  match n with
  | O => EmptyString
  | S n' => String c (repeatChar n' c)
  end.

(** A page that answers its accessors, and a POST request with a body. *)
Definition examplePage : PageObs :=
  {| pg_url := Normal (JStr "http://x/"); pg_tab := Normal None |}.

Definition exampleRequest (key : nat) (url : string) (body : JsVal) : PwRequest :=
  {| rq_key := key;
     rq_url := Normal (JStr url);
     rq_method := Normal (JStr "POST");
     rq_resourceType := Normal (JStr "fetch");
     rq_isNavigationRequest := Normal (JBool false);
     rq_frame := Normal None;
     rq_headers := Normal (Some {[ "accept" := "*/*" ]});
     rq_postData := Normal body;
     rq_failureText := Normal JUndefined |}.

Definition exampleResponse (key : nat) (body : JsVal) : PwResponse :=
  {| rs_request := Normal key;
     rs_headers := Normal (Some {[ "content-type" := "text/plain" ]});
     rs_status := Normal (JInt 200);
     rs_statusText := Normal (JStr "OK");
     rs_text := inl body;
     rs_timing := Throw |}.

(** Three records captured around 2025-01-01T00:00:00Z (1735689600000),
    the first with a header object. *)
Definition exampleHeap : Heap :=
  [ {[ "accept" := JStr "*/*" ]};
    <["timestamp" := JInt 1735689599999]>
      (<["url" := JStr "http://x/a.png"]> {[ "requestHeaders" := JRef 0 ]});
    <["timestamp" := JInt 1735689600001]> {[ "url" := JStr "http://x/a.png.js" ]};
    <["timestamp" := JInt 1735689600000]> {[ "url" := JStr "http://x/b.css" ]} ].

Definition exampleStore : RequestStorage :=
  {| requests := [("req-1", 1%nat); ("req-2", 2%nat); ("req-3", 3%nat)];
     requestCounter := 3;
     activePageMonitors := [] |}.



(* ===================================================================== *)
(** * Properties *)
(* ===================================================================== *)

(** ** Maps and the heap *)

Section JsMapFacts.
Context {K V : Type} `{EqDecision K}.
Implicit Types (m : list (K * V)) (k : K) (v : V).

Lemma mapGet_mapSet_eq m k v : mapGet (mapSet m k v) k = Some v.
Proof.
  induction m as [|[k' v'] m IH]; simpl.
  - by rewrite decide_True.
  - destruct (decide (k' = k)) as [->|Hne]; simpl.
    + by rewrite decide_True.
    + by rewrite decide_False.
Qed.

Lemma mapGet_mapSet_ne m k k' v : k ≠ k' → mapGet (mapSet m k v) k' = mapGet m k'.
Proof.
  intros Hne. induction m as [|[k0 v0] m IH]; simpl.
  - by rewrite decide_False.
  - destruct (decide (k0 = k)) as [->|Hk]; simpl.
    + by rewrite !decide_False.
    + destruct (decide (k0 = k')); [done | apply IH].
Qed.

Lemma mapGet_mapDelete_eq m k : mapGet (mapDelete m k) k = None.
Proof.
  induction m as [|[k' v'] m IH]; simpl; [done |].
  destruct (decide (k' = k)) as [->|Hne]; simpl; [done |].
  by rewrite decide_False.
Qed.

Lemma mapSet_fresh m k v : mapGet m k = None → mapSet m k v = m ++ [(k, v)].
Proof.
  induction m as [|[k' v'] m IH]; simpl; [done |].
  destruct (decide (k' = k)); [done |]. intros Hm. by rewrite IH.
Qed.

Lemma mapGet_Some_elem m k v : mapGet m k = Some v → (k, v) ∈ m.
Proof.
  induction m as [|[k' v'] m IH]; simpl; [done |].
  destruct (decide (k' = k)) as [->|Hne].
  - intros [= ->]. left.
  - intros Hm. right. by apply IH.
Qed.

Lemma mapGet_None_not_elem m k v : mapGet m k = None → (k, v) ∉ m.
Proof.
  induction m as [|[k' v'] m IH]; simpl.
  - intros _ Hin. by apply elem_of_nil in Hin.
  - destruct (decide (k' = k)) as [->|Hne]; [done |].
    intros Hm [Heq|Hin]%elem_of_cons; [congruence | by apply IH in Hin].
Qed.

End JsMapFacts.

Lemma deref_app_l (h h' : Heap) (l : loc) :
  (l < length h)%nat → deref (h ++ h') l = deref h l.
Proof. intros Hl. unfold deref. by rewrite lookup_app_l. Qed.

Lemma deref_app_new (h : Heap) (o : Obj) : deref (h ++ [o]) (length h) = o.
Proof. unfold deref. by rewrite list_lookup_middle. Qed.

Lemma deref_insert_eq (h : Heap) (l : loc) (o : Obj) :
  (l < length h)%nat → deref (<[l := o]> h) l = o.
Proof. intros Hl. unfold deref. by rewrite list_lookup_insert_eq. Qed.

Lemma deref_insert_ne (h : Heap) (l l' : loc) (o : Obj) :
  l ≠ l' → deref (<[l := o]> h) l' = deref h l'.
Proof. intros Hne. unfold deref. by rewrite list_lookup_insert_ne. Qed.

(** ** Attaching, detaching, disposing *)

Lemma newPageTracker_contextState options obs w :
  contextState (newPageTracker options obs w).2 = contextState w.
Proof. reflexivity. Qed.

Lemma attachPage_tracked ctx pg obs w :
  ∃ state, mapGet (contextState (attachPage ctx pg obs w).2) ctx = Some state
           ∧ mapGet (cs_trackers state) pg = Some (attachPage ctx pg obs w).1.
Proof.
  unfold attachPage, ensureContextState.
  destruct (mapGet (contextState w) ctx) as [state|] eqn:Hctx.
  - destruct (mapGet (cs_trackers state) pg) as [tracker|] eqn:Hpg.
    + exists state. simpl. by rewrite Hctx.
    + eexists. split; [apply mapGet_mapSet_eq | apply mapGet_mapSet_eq].
  - eexists. split; [apply mapGet_mapSet_eq | apply mapGet_mapSet_eq].
Qed.

Lemma attachPage_again ctx pg obs w t state :
  mapGet (contextState w) ctx = Some state →
  mapGet (cs_trackers state) pg = Some t →
  attachPage ctx pg obs w = (t, w).
Proof.
  intros Hctx Hpg. unfold attachPage, ensureContextState. by rewrite Hctx, Hpg.
Qed.

Lemma dispose_disposed t w tracker :
  getTracker w t = Some tracker → _disposed tracker = true → dispose t w = w.
Proof. intros Ht Hd. unfold dispose. by rewrite Ht, Hd. Qed.

Lemma dispose_marks t w tracker :
  getTracker w t = Some tracker →
  ∃ tracker', getTracker (dispose t w) t = Some tracker' ∧ _disposed tracker' = true.
Proof.
  intros Ht. unfold dispose. rewrite Ht.
  destruct (_disposed tracker) eqn:Hd; [by exists tracker |].
  eexists. split.
  - unfold getTracker in *. simpl.
    apply list_lookup_insert_eq. by eapply lookup_lt_Some.
  - reflexivity.
Qed.

Lemma dispose_contextState t w : contextState (dispose t w) = contextState w.
Proof.
  unfold dispose. destruct (getTracker w t) as [tracker|]; [|done].
  by destruct (_disposed tracker).
Qed.

(** C8.  Attaching the same page of the same context a second time returns
    the tracker of the first call and leaves the whole state as the first
    call left it (no second tracker, no new store entry, no new listener);
    detaching a second time changes nothing; detaching for an unknown
    context or page changes nothing; disposing a tracker a second time
    changes nothing. *)
Theorem attach_detach_dispose_idempotent
    (w : World) (ctx pg t : nat) (obs obs' : PageObs) :
  attachPage ctx pg obs' (attachPage ctx pg obs w).2 = attachPage ctx pg obs w
  ∧ detachPage ctx pg (detachPage ctx pg w) = detachPage ctx pg w
  ∧ (mapGet (contextState w) ctx = None → detachPage ctx pg w = w)
  ∧ (∀ state, mapGet (contextState w) ctx = Some state →
              mapGet (cs_trackers state) pg = None → detachPage ctx pg w = w)
  ∧ dispose t (dispose t w) = dispose t w.
Proof.
  repeat split.
  - destruct (attachPage_tracked ctx pg obs w) as (state & Hctx & Hpg).
    rewrite (attachPage_again _ _ _ _ _ _ Hctx Hpg).
    by destruct (attachPage ctx pg obs w).
  - unfold detachPage at 2 3.
    destruct (mapGet (contextState w) ctx) as [state|] eqn:Hctx.
    + destruct (mapGet (cs_trackers state) pg) as [tracker|] eqn:Hpg.
      * unfold detachPage. simpl. rewrite mapGet_mapSet_eq. simpl.
        by rewrite mapGet_mapDelete_eq.
      * unfold detachPage. by rewrite Hctx, Hpg.
    + unfold detachPage. by rewrite Hctx.
  - intros Hctx. unfold detachPage. by rewrite Hctx.
  - intros state Hctx Hpg. unfold detachPage. by rewrite Hctx, Hpg.
  - destruct (getTracker w t) as [tracker|] eqn:Ht.
    + destruct (dispose_marks _ _ _ Ht) as (tracker' & Ht' & Hd).
      by apply (dispose_disposed _ _ tracker').
    + unfold dispose at 2. rewrite Ht. unfold dispose. by rewrite Ht.
Qed.

(** ** Limits *)

Section LimitFacts.
Context {host : Host}.

(** The constructor never reads [options.limits]: whatever limits are
    current, a tracker built the way [attachPage] builds it has the two
    constants as ceilings. *)
Lemma newPageTracker_ceilings ctx pg pid s limits obs w :
  let options := {| opt_context := ctx; opt_page := pg; opt_pageId := pid;
                    opt_storage := s; opt_limits := limits;
                    opt_maxBodyLength := None; opt_maxPostDataLength := None |} in
  ∃ tracker,
    getTracker (newPageTracker options obs w).2 (newPageTracker options obs w).1
      = Some tracker
    ∧ maxPostDataLength tracker = 32768
    ∧ maxBodyLength tracker = 65536.
Proof.
  simpl. eexists. split.
  - unfold getTracker, newPageTracker, setStorage, pageOn, setListeners. simpl.
    by apply list_lookup_middle.
  - split; reflexivity.
Qed.

(** What [parseLimitOption] accepts: a value whose numeric reading is finite
    and above zero; the result is that number rounded. *)
Lemma parseLimitOption_accepts value parsed :
  parseLimitOption value = Some parsed ↔
  isNullish value = false
  ∧ ∃ q, toNumber value = Fin q ∧ (0 < q)%Q
         ∧ parsed = Fin (inject_Z (Qfloor (q + (1 # 2)))).
Proof.
  unfold parseLimitOption.
  destruct (isNullish value); [split; [done | by intros [? _]] |].
  destruct (toNumber value) as [| | |q]; simpl;
    try (split; [done | by intros (_ & ? & ? & _)]).
  destruct (Qle_bool q 0) eqn:Hq.
  - apply Qle_bool_iff in Hq. split; [done |].
    intros (_ & q' & [= <-] & Hpos & _). exfalso. by apply (Qlt_not_le 0 q).
  - split.
    + intros [= <-]. split; [done |]. exists q. repeat split.
      apply Qnot_le_lt. intros Hle. apply Qle_bool_iff in Hle. congruence.
    + by intros (_ & q' & [= <-] & _ & ->).
Qed.

(** An override that is not accepted leaves the limit as it was. *)
Lemma configureNetworkLimits_ignored options w :
  parseLimitOption (getProp options "maxRequestBodyKB") = None →
  parseLimitOption (getProp options "maxResponseBodyKB") = None →
  configureNetworkLimits options w = w.
Proof.
  intros Hreq Hres. unfold configureNetworkLimits. rewrite Hreq, Hres.
  destruct w as [? ? ? ? ? [] ? ? ?]; simpl.
  by repeat match goal with |- context [if ?c then _ else _] => destruct c end.
Qed.

(** C9, at the input where the code leaves the claim: an override of a
    quarter of a kilobyte is a finite number above zero, so it is accepted;
    it rounds to 0, and the request-body ceiling becomes 0 bytes. *)
Theorem configureNetworkLimits_quarter_kilobyte (w : World) :
  parseLimitOption (JNum (Fin (1 # 4))) = Some (Fin 0)
  ∧ maxRequestBodyBytes
      (currentLimits
         (configureNetworkLimits (<["maxRequestBodyKB" := JNum (Fin (1 # 4))]> ∅) w))
    = Fin 0.
Proof. split; reflexivity. Qed.

(** C1, at the input where the code leaves the claim: with both limits
    configured to 1 KB, a page attached afterwards gets a tracker whose
    ceilings are still 32768 and 65536, and a 2000-character request body is
    stored whole, flagged as not truncated. *)
Theorem attachPage_after_configure_uses_constants :
  let options : Obj :=
    <["maxRequestBodyKB" := JInt 1]> (<["maxResponseBodyKB" := JInt 1]> ∅) in
  let w0 := configureNetworkLimits options initialWorld in
  let w1 := (attachPage 0 0 examplePage w0).2 in
  let body := repeatChar (Z.to_nat 2000) "a" in
  let w2 := _onRequest 0 1000 examplePage (exampleRequest 7 "http://x/" (JStr body)) w1 in
  getLimits w1 = {| maxRequestBodyBytes := Fin (inject_Z 1024);
                    maxResponseBodyBytes := Fin (inject_Z 1024) |}
  ∧ (maxPostDataLength <$> getTracker w1 0) = Some 32768
  ∧ (maxBodyLength <$> getTracker w1 0) = Some 65536
  ∧ getProp (storedRecord w2 0 "req-1") "requestBody" = JStr body
  ∧ getProp (storedRecord w2 0 "req-1") "requestBodyTruncated" = JBool false.
Proof. vm_compute. repeat split; reflexivity. Qed.

(** C2, at the input where the code leaves the claim: a request body of
    32769 characters is cut to 32768 and flagged as truncated, yet the record
    holds the same number in [requestBodyBytes] and [requestBodySize]; the
    response body of 65537 characters is flagged as truncated while both of
    its counts are 0. *)
Theorem truncated_record_has_equal_byte_counts :
  let w1 := (attachPage 0 0 examplePage initialWorld).2 in
  let w2 := _onRequest 0 1000 examplePage
              (exampleRequest 7 "http://x/" (JStr (repeatChar (Z.to_nat 32769) "a"))) w1 in
  let w3 := _onResponse 0 examplePage
              (exampleResponse 7 (JStr (repeatChar (Z.to_nat 65537) "b"))) w2 in
  let record := storedRecord w3 0 "req-1" in
  getProp record "requestBodyTruncated" = JBool true
  ∧ getProp record "requestBodyBytes" = JInt 32768
  ∧ getProp record "requestBodySize" = JInt 32768
  ∧ getProp record "responseBodyTruncated" = JBool true
  ∧ getProp record "responseBodyBytes" = JInt 0
  ∧ getProp record "responseBodySize" = JInt 0.
Proof. vm_compute. repeat split; reflexivity. Qed.

End LimitFacts.

(** ** Reading properties *)

Lemma getProp_insert_eq (o : Obj) k v : getProp (<[k := v]> o) k = v.
Proof. unfold getProp. by rewrite lookup_insert_eq. Qed.

Lemma getProp_insert_ne (o : Obj) k k' v :
  k ≠ k' → getProp (<[k := v]> o) k' = getProp o k'.
Proof. intros Hne. unfold getProp. by rewrite lookup_insert_ne. Qed.

Lemma getProp_union_absent (patch o : Obj) k :
  patch !! k = None → getProp (patch ∪ o) k = getProp o k.
Proof. intros Hk. unfold getProp. by rewrite lookup_union_r. Qed.

Lemma getProp_union_present (patch o : Obj) k v :
  patch !! k = Some v → getProp (patch ∪ o) k = v.
Proof. intros Hk. unfold getProp. by rewrite (lookup_union_Some_l _ _ _ _ Hk). Qed.

(** ** Byte counts under [updateRequest] *)

Lemma deriveBytesOnUpdate_keeps patch bodyKey bytesKey existing k :
  k ≠ bytesKey ∨ isNumber (getProp existing k) = true →
  getProp (deriveBytesOnUpdate patch bodyKey bytesKey existing).2 k = getProp existing k.
Proof.
  intros Hk. unfold deriveBytesOnUpdate.
  destruct (negb (strictEq (getProp patch bodyKey) JUndefined)); simpl; [|done].
  destruct (isNumber (getProp existing bytesKey)) eqn:Hnum; simpl; [done |].
  destruct (bodyBytes (getProp existing bodyKey)); simpl; [|done].
  destruct Hk as [Hne|Hk]; [by apply getProp_insert_ne |].
  destruct (decide (bytesKey = k)) as [->|Hne]; [congruence |].
  by apply getProp_insert_ne.
Qed.

Lemma deriveSizeOnUpdate_keeps patch sizeKey existing k :
  k ≠ sizeKey ∨ isNumber (getProp existing k) = true →
  getProp (deriveSizeOnUpdate patch sizeKey existing) k = getProp existing k.
Proof.
  intros Hk. unfold deriveSizeOnUpdate.
  destruct (negb (strictEq (getProp patch sizeKey) JUndefined)); simpl; [|done].
  destruct (isNumber (getProp existing sizeKey)) eqn:Hnum; simpl; [done |].
  destruct Hk as [Hne|Hk]; [by apply getProp_insert_ne |].
  destruct (decide (sizeKey = k)) as [->|Hne]; [congruence |].
  by apply getProp_insert_ne.
Qed.

(** A count that is a number on the record, and that the patch does not
    carry, is the same after [updateRequest]'s work on the record. *)
Lemma updateRecord_keeps_count patch existing k :
  patch !! k = None →
  isNumber (getProp existing k) = true →
  getProp (updateRecord patch existing).2 k = getProp existing k.
Proof.
  intros Hpatch Hnum. unfold updateRecord.
  pose proof (getProp_union_absent patch existing k Hpatch) as H0.
  set (e0 := patch ∪ existing) in *.
  pose proof (deriveBytesOnUpdate_keeps patch "responseBody" "responseBodyBytes" e0 k) as H1.
  destruct (deriveBytesOnUpdate patch "responseBody" "responseBodyBytes" e0)
    as [[[]|] e1]; simpl in *.
  2: { rewrite H1; [done | right; congruence]. }
  pose proof (deriveSizeOnUpdate_keeps patch "responseBodySize" e1 k) as H2.
  set (e2 := deriveSizeOnUpdate patch "responseBodySize" e1) in *.
  pose proof (deriveBytesOnUpdate_keeps patch "requestBody" "requestBodyBytes" e2 k) as H3.
  assert (getProp e1 k = getProp existing k) as E1
    by (rewrite H1; [done | right; congruence]).
  assert (getProp e2 k = getProp existing k) as E2
    by (rewrite H2; [done | right; congruence]).
  destruct (deriveBytesOnUpdate patch "requestBody" "requestBodyBytes" e2)
    as [[[]|] e3]; simpl in *.
  2: { rewrite H3; [done | right; congruence]. }
  assert (getProp e3 k = getProp existing k) as E3
    by (rewrite H3; [done | right; congruence]).
  rewrite deriveSizeOnUpdate_keeps; [done | right; congruence].
Qed.

Lemma updateRequest_heap_length id patch st h :
  length (updateRequest id patch st h).2 = length h.
Proof.
  unfold updateRequest. destruct (mapGet (requests st) id) as [l|]; [|done].
  destruct (updateRecord patch (deref h l)) as [[] o]; simpl; by rewrite length_insert.
Qed.

Lemma updateRequest_keeps_count id patch st h l k :
  (l < length h)%nat →
  patch !! k = None →
  isNumber (getProp (deref h l) k) = true →
  getProp (deref (updateRequest id patch st h).2 l) k = getProp (deref h l) k.
Proof.
  intros Hl Hpatch Hnum. unfold updateRequest.
  destruct (mapGet (requests st) id) as [l0|]; [|done].
  pose proof (updateRecord_keeps_count patch (deref h l0) k Hpatch) as Hkeep.
  destruct (updateRecord patch (deref h l0)) as [c o]; simpl in *.
  assert (getProp (deref (<[l0 := o]> h) l) k = getProp (deref h l) k) as Hgoal.
  { destruct (decide (l0 = l)) as [->|Hne].
    - rewrite deref_insert_eq by done. by apply Hkeep.
    - by rewrite deref_insert_ne. }
  by destruct c.
Qed.

(** ** What [saveRequest] stores *)

Lemma bodyBytes_numeric body n : bodyBytes body = Normal n → isNumber n = true.
Proof.
  unfold bodyBytes, bufferByteLength.
  destruct (truthy body); [destruct body|]; by intros [= <-].
Qed.

Lemma deriveBytesOnSave_keeps bodyKey bytesKey record record' k :
  deriveBytesOnSave bodyKey bytesKey record = Normal record' →
  k ≠ bytesKey → getProp record' k = getProp record k.
Proof.
  unfold deriveBytesOnSave. intros Hd Hk.
  destruct (isNumber (getProp record bytesKey)); simpl in Hd.
  - by injection Hd as <-.
  - destruct (bodyBytes (getProp record bodyKey)); simpl in Hd; [|done].
    injection Hd as <-. by apply getProp_insert_ne.
Qed.

Lemma deriveBytesOnSave_value bodyKey bytesKey record record' :
  deriveBytesOnSave bodyKey bytesKey record = Normal record' →
  savedBytes record bodyKey bytesKey = Normal (getProp record' bytesKey).
Proof.
  unfold deriveBytesOnSave, savedBytes. intros Hd.
  destruct (isNumber (getProp record bytesKey)); simpl in Hd.
  - by injection Hd as <-.
  - destruct (bodyBytes (getProp record bodyKey)); simpl in Hd; [|done].
    injection Hd as <-. by rewrite getProp_insert_eq.
Qed.

Lemma deriveSizeOnSave_keeps bytesKey sizeKey record k :
  k ≠ sizeKey → getProp (deriveSizeOnSave bytesKey sizeKey record) k = getProp record k.
Proof.
  unfold deriveSizeOnSave. intros Hk.
  destruct (isNumber (getProp record sizeKey)); simpl; [done |].
  by apply getProp_insert_ne.
Qed.

Lemma deriveSizeOnSave_value bytesKey sizeKey record :
  getProp (deriveSizeOnSave bytesKey sizeKey record) sizeKey
  = savedSize record (getProp record bytesKey) sizeKey.
Proof.
  unfold deriveSizeOnSave, savedSize.
  destruct (isNumber (getProp record sizeKey)); simpl; [done |].
  by rewrite getProp_insert_eq.
Qed.

Lemma savedBytes_ext r r' bodyKey bytesKey :
  getProp r' bodyKey = getProp r bodyKey →
  getProp r' bytesKey = getProp r bytesKey →
  savedBytes r' bodyKey bytesKey = savedBytes r bodyKey bytesKey.
Proof. unfold savedBytes. by intros -> ->. Qed.

Lemma savedSize_ext r r' bytes sizeKey :
  getProp r' sizeKey = getProp r sizeKey →
  savedSize r' bytes sizeKey = savedSize r bytes sizeKey.
Proof. unfold savedSize. by intros ->. Qed.

(** The record [saveRequest] stores, field by field. *)
Lemma deriveOnSave_fields record record' :
  deriveOnSave record = Normal record' →
  savedBytes record "requestBody" "requestBodyBytes"
    = Normal (getProp record' "requestBodyBytes")
  ∧ getProp record' "requestBodySize"
    = savedSize record (getProp record' "requestBodyBytes") "requestBodySize"
  ∧ savedBytes record "responseBody" "responseBodyBytes"
    = Normal (getProp record' "responseBodyBytes")
  ∧ getProp record' "responseBodySize"
    = savedSize record (getProp record' "responseBodyBytes") "responseBodySize"
  ∧ ∀ k, k ≠ "requestBodyBytes" → k ≠ "requestBodySize" →
         k ≠ "responseBodyBytes" → k ≠ "responseBodySize" →
         getProp record' k = getProp record k.
Proof.
  unfold deriveOnSave. intros Hd.
  destruct (deriveBytesOnSave "requestBody" "requestBodyBytes" record)
    as [r1|] eqn:H1; simpl in Hd; [|done].
  set (r2 := deriveSizeOnSave "requestBodyBytes" "requestBodySize" r1) in *.
  destruct (deriveBytesOnSave "responseBody" "responseBodyBytes" r2)
    as [r3|] eqn:H3; simpl in Hd; [|done].
  injection Hd as <-.
  pose proof (fun k => deriveBytesOnSave_keeps _ _ _ _ k H1) as K1.
  pose proof (deriveBytesOnSave_value _ _ _ _ H1) as V1.
  pose proof (deriveSizeOnSave_keeps "requestBodyBytes" "requestBodySize" r1) as K2.
  pose proof (deriveSizeOnSave_value "requestBodyBytes" "requestBodySize" r1) as V2.
  pose proof (fun k => deriveBytesOnSave_keeps _ _ _ _ k H3) as K3.
  pose proof (deriveBytesOnSave_value _ _ _ _ H3) as V3.
  pose proof (deriveSizeOnSave_keeps "responseBodyBytes" "responseBodySize" r3) as K4.
  pose proof (deriveSizeOnSave_value "responseBodyBytes" "responseBodySize" r3) as V4.
  fold r2 in K2, V2.
  set (r4 := deriveSizeOnSave "responseBodyBytes" "responseBodySize" r3) in *.
  assert (getProp r4 "requestBodyBytes" = getProp r1 "requestBodyBytes") as E1
    by (rewrite K4, K3, K2; done).
  repeat split.
  - by rewrite E1.
  - rewrite K4, K3, V2, E1 by done.
    apply savedSize_ext. by apply K1.
  - rewrite K4 by done. rewrite <- V3.
    symmetry. apply savedBytes_ext.
    + rewrite K2, K1; done.
    + rewrite K2, K1; done.
  - rewrite V4, K4 by done.
    apply savedSize_ext. rewrite K3, K2, K1; done.
  - intros k N1 N2 N3 N4. rewrite K4, K3, K2, K1; done.
Qed.

Lemma saveRequest_Normal now data st h l st' h' :
  saveRequest now data st h = (Normal l, st', h') →
  let requestId := ("req-" ++ decimal (requestCounter st + 1))%string in
  ∃ record',
    deriveOnSave (data ∪ <["id" := JStr requestId]> (<["timestamp" := JInt now]> ∅))
      = Normal record'
    ∧ l = length h ∧ h' = h ++ [record']
    ∧ requests st' = mapSet (requests st) requestId l
    ∧ requestCounter st' = (requestCounter st + 1)%N
    ∧ activePageMonitors st' = activePageMonitors st.
Proof.
  unfold saveRequest, alloc. intros Hs.
  destruct (deriveOnSave _) as [record'|]; [|done].
  injection Hs as <- <- <-. by exists record'.
Qed.

Lemma saveRequest_Throw now data st h st' h' :
  saveRequest now data st h = (Throw, st', h') →
  h' = h ∧ requests st' = requests st.
Proof.
  unfold saveRequest, alloc. intros Hs.
  destruct (deriveOnSave _) as [record'|]; [done |].
  by injection Hs as <- <-.
Qed.

(** ** The response counts of a record the tracker created *)

Lemma observePage_heap t obs w : heap (observePage t obs w) = heap w.
Proof. unfold observePage. by destruct (getTracker w t). Qed.

Lemma observePage_storages t obs w : storages (observePage t obs w) = storages w.
Proof. unfold observePage. by destruct (getTracker w t). Qed.

Lemma observePage_requestIds t obs w : requestIds (observePage t obs w) = requestIds w.
Proof. unfold observePage. by destruct (getTracker w t). Qed.

Lemma safeClone_extends value h : ∃ ext, (safeClone value h).2 = h ++ ext.
Proof.
  destruct value as [headers|]; simpl.
  - by eexists.
  - exists []. by rewrite app_nil_r.
Qed.

Lemma responsePatch_no_count p responseHeaders body truncated bodyError timing
    durationMs k :
  k = "responseBodyBytes" ∨ k = "responseBodySize" →
  responsePatch p responseHeaders body truncated bodyError timing durationMs !! k = None.
Proof. by intros [-> | ->]. Qed.

Section ResponseCounts.
Context {host : Host}.

Lemma safeTiming_extends response h : ∃ ext, (safeTiming response h).2 = h ++ ext.
Proof.
  unfold safeTiming. destruct (rs_timing response) as [[timing|]|]; simpl.
  - by eexists.
  - exists []. by rewrite app_nil_r.
  - exists []. by rewrite app_nil_r.
Qed.

Lemma updateStored_keeps_count s requestId patch w l k :
  (l < length (heap w))%nat →
  patch !! k = None →
  isNumber (getProp (deref (heap w) l) k) = true →
  length (heap (updateStored s requestId patch w)) = length (heap w)
  ∧ getProp (deref (heap (updateStored s requestId patch w)) l) k
    = getProp (deref (heap w) l) k.
Proof.
  intros Hl Hpatch Hnum. unfold updateStored.
  destruct requestId; try done. simpl. split.
  - apply updateRequest_heap_length.
  - by apply updateRequest_keeps_count.
Qed.

(** Once a response count of a stored record is a number, no response event
    changes it: the patch [_onResponse] builds carries neither count. *)
Lemma onResponse_keeps_count t obs response w l k :
  k = "responseBodyBytes" ∨ k = "responseBodySize" →
  (l < length (heap w))%nat →
  isNumber (getProp (deref (heap w) l) k) = true →
  (length (heap w) ≤ length (heap (_onResponse t obs response w)))%nat
  ∧ getProp (deref (heap (_onResponse t obs response w)) l) k
    = getProp (deref (heap w) l) k.
Proof.
  intros Hk Hl Hnum. unfold _onResponse.
  destruct (_onResponse_begin t obs response w) as [pending w1] eqn:Hbegin.
  assert (heap w1 = heap w) as Hw1.
  { unfold _onResponse_begin in Hbegin.
    repeat match type of Hbegin with
           | context [match ?c with _ => _ end] => destruct c
           end; injection Hbegin as <- <-; apply observePage_heap. }
  destruct pending as [p|]; [|by rewrite Hw1].
  unfold _onResponse_resume.
  destruct (getTracker w1 t) as [tracker|]; [|by rewrite Hw1].
  destruct (_readResponseBody tracker response) as [[body truncated] bodyError].
  destruct (safeTiming_extends response (heap w1)) as [ext1 Hext1].
  destruct (safeTiming response (heap w1)) as [timing h1]. simpl in Hext1. subst h1.
  destruct (rs_headers response) as [headers|].
  - destruct (safeClone_extends headers (heap w1 ++ ext1)) as [ext2 Hext2].
    destruct (safeClone headers (heap w1 ++ ext1)) as [responseHeaders h2].
    simpl in Hext2. subst h2.
    match goal with
    | |- context [updateStored ?s ?r ?patch ?w'] =>
        destruct (updateStored_keeps_count s r patch w' l k) as [Hlen Hget]
    end.
    + simpl. rewrite !length_app, Hw1. lia.
    + by apply responsePatch_no_count.
    + simpl. rewrite !deref_app_l by (rewrite ?length_app, Hw1; lia).
      by rewrite Hw1.
    + rewrite Hlen, Hget. simpl. rewrite !length_app, Hw1. split; [lia |].
      rewrite !deref_app_l by (rewrite ?length_app; lia). done.
  - simpl. rewrite length_app, Hw1. split; [lia |].
    by rewrite deref_app_l by lia.
Qed.

(** The same over any run of response events. *)
Lemma onResponses_keep_count (events : list (nat * PageObs * PwResponse)) w l k :
  k = "responseBodyBytes" ∨ k = "responseBodySize" →
  (l < length (heap w))%nat →
  isNumber (getProp (deref (heap w) l) k) = true →
  getProp (deref (heap (fold_left (fun w e => _onResponse e.1.1 e.1.2 e.2 w) events w))
             l) k
  = getProp (deref (heap w) l) k.
Proof.
  intros Hk. revert w. induction events as [|e events IH]; intros w Hl Hnum; [done |].
  simpl. destruct (onResponse_keeps_count e.1.1 e.1.2 e.2 w l k Hk Hl Hnum) as [Hlen Hget].
  rewrite IH; [done | lia | by rewrite Hget].
Qed.

End ResponseCounts.

Lemma requestData_base_fields tracker url method resourceType isNavigationRequest
    frameUrl requestHeaders requestBody requestBodyTruncated (id : string) (now : Z) :
  let record : Obj :=
    requestData tracker url method resourceType isNavigationRequest frameUrl
      requestHeaders requestBody requestBodyTruncated
    ∪ <["id" := JStr id]> (<["timestamp" := JInt now]> ∅) in
  getProp record "id" = JStr id
  ∧ getProp record "timestamp" = JInt now
  ∧ getProp record "requestBody" = requestBody
  ∧ getProp record "requestBodyTruncated" = JBool requestBodyTruncated
  ∧ getProp record "requestBodyBytes" = JUndefined
  ∧ getProp record "requestBodySize" = JUndefined
  ∧ getProp record "responseBody" = JNull
  ∧ getProp record "responseBodyBytes" = JUndefined
  ∧ getProp record "responseBodySize" = JUndefined.
Proof. repeat split; reflexivity. Qed.

Section CreatedRecords.
Context {host : Host}.

(** What [_onRequest] leaves when it attaches an identifier to a request
    object that had none: the identifier names a record of the tracker's
    storage, the record is the last object of the heap, and it is the object
    [saveRequest] derived from the handler's data. *)
Lemma onRequest_creates t now obs request w rid :
  mapGet (requestIds w) (rq_key request) = None →
  mapGet (requestIds (_onRequest t now obs request w)) (rq_key request) = Some rid →
  ∃ tracker id l record body truncated,
    getTracker (_onRequest t now obs request w) t = Some tracker
    ∧ rid = JStr id
    ∧ safeTruncate (rq_postData request) (maxPostDataLength tracker) = (body, truncated)
    ∧ heap (_onRequest t now obs request w) !! l = Some record
    ∧ length (heap (_onRequest t now obs request w)) = S l
    ∧ (∀ l', getRequest id (getStorage (_onRequest t now obs request w) (storage tracker))
               = Some l' → l' = l)
    ∧ getProp record "id" = JStr id
    ∧ getProp record "requestBody" = body
    ∧ getProp record "requestBodyTruncated" = JBool truncated
    ∧ savedBytes (<["requestBody" := body]> ∅) "requestBody" "requestBodyBytes"
      = Normal (getProp record "requestBodyBytes")
    ∧ getProp record "requestBodySize" = getProp record "requestBodyBytes"
    ∧ getProp record "responseBodyBytes" = JInt 0
    ∧ getProp record "responseBodySize" = JInt 0.
Proof.
  intros Hfresh. unfold _onRequest.
  set (w0 := observePage t obs w).
  assert (requestIds w0 = requestIds w) as Hids by apply observePage_requestIds.
  destruct (getTracker w0 t) as [tracker|] eqn:Htracker;
    [|intros Hrid; rewrite Hids in Hrid; congruence].
  destruct (safeTruncate (rq_postData request) (maxPostDataLength tracker))
    as [body truncated] eqn:Htrunc.
  destruct (rq_url request) as [url|];
    [|intros Hrid; rewrite Hids in Hrid; congruence].
  destruct (rq_method request) as [method|];
    [|intros Hrid; rewrite Hids in Hrid; congruence].
  destruct (rq_resourceType request) as [resourceType|];
    [|intros Hrid; rewrite Hids in Hrid; congruence].
  destruct (rq_isNavigationRequest request) as [isNavigationRequest|];
    [|intros Hrid; rewrite Hids in Hrid; congruence].
  destruct (rq_headers request) as [headers|];
    [|intros Hrid; rewrite Hids in Hrid; congruence].
  destruct (safeClone headers (heap w0)) as [requestHeaders h1].
  destruct (saveRequest _ _ _ h1) as [[saved st'] h2] eqn:Hsave.
  destruct saved as [l|]; simpl;
    [|intros Hrid; rewrite Hids in Hrid; congruence].
  rewrite mapGet_mapSet_eq. intros [= <-].
  apply saveRequest_Normal in Hsave as (record & Hderive & -> & -> & Hreqs & _ & _).
  apply deriveOnSave_fields in Hderive as (Hrb & Hrs & Hsb & Hss & Hother).
  destruct (requestData_base_fields tracker url method resourceType
              isNavigationRequest (safeFrameUrl request) requestHeaders body truncated
              ("req-" ++ decimal (requestCounter (getStorage w0 (storage tracker)) + 1))
              now)
    as (Fid & _ & Fbody & Ftrunc & Frb & Frs & Fsbody & Fsb & Fss).
  exists tracker, ("req-" ++ decimal (requestCounter (getStorage w0 (storage tracker)) + 1))%string,
    (length h1), record, body, truncated.
  rewrite deref_app_new.
  split; [done |]. split; [by rewrite Hother, Fid |].
  split; [done |]. split; [by apply list_lookup_middle |].
  split; [rewrite length_app; simpl; lia |].
  split.
  { intros l'. unfold getRequest, getStorage. simpl.
    destruct (decide (storage tracker < length (storages w0))%nat) as [Hs|Hs].
    - rewrite list_lookup_insert_eq by done. simpl.
      rewrite Hreqs, mapGet_mapSet_eq. by intros [= <-].
    - rewrite list_insert_ge by lia.
      rewrite (lookup_ge_None_2 (storages w0) (storage tracker)) by lia. done. }
  split; [by rewrite Hother, Fid |].
  split; [by rewrite Hother, Fbody |].
  split; [by rewrite Hother, Ftrunc |].
  split.
  { rewrite <- Hrb. unfold savedBytes. rewrite Frb, Fbody. simpl.
    by rewrite getProp_insert_eq. }
  split.
  { rewrite Hrs. unfold savedSize. by rewrite Frs. }
  assert (getProp record "responseBodyBytes" = JInt 0) as Hzero.
  { unfold savedBytes in Hsb. rewrite Fsb, Fsbody in Hsb.
    unfold bodyBytes in Hsb. simpl in Hsb. congruence. }
  split; [done |].
  rewrite Hss. unfold savedSize. by rewrite Fss.
Qed.

(** C10.  Take a request object that has no identifier attached, let the
    tracker's request handler run on it, and suppose the handler attached an
    identifier [id] (it saved a record).  Then, for the record the tracker's
    storage keeps under [id], [responseBodyBytes] and [responseBodySize] are 0
    after the handler and after any run of response events that follows,
    whatever bodies those responses carry. *)
Theorem response_counts_stay_zero
    (t : nat) (now : Z) (obs : PageObs) (request : PwRequest) (w : World)
    (id : string) (tracker : PageTracker) (l : loc)
    (events : list (nat * PageObs * PwResponse)) :
  mapGet (requestIds w) (rq_key request) = None →
  let w1 := _onRequest t now obs request w in
  mapGet (requestIds w1) (rq_key request) = Some (JStr id) →
  getTracker w1 t = Some tracker →
  getRequest id (getStorage w1 (storage tracker)) = Some l →
  let w2 := fold_left (fun w e => _onResponse e.1.1 e.1.2 e.2 w) events w1 in
  getProp (deref (heap w2) l) "responseBodyBytes" = JInt 0
  ∧ getProp (deref (heap w2) l) "responseBodySize" = JInt 0.
Proof.
  intros Hfresh. cbv zeta. intros Hid Htracker Hget.
  destruct (onRequest_creates t now obs request w (JStr id) Hfresh Hid)
    as (tracker' & id' & l' & record & body & truncated & Htracker' & [= <-] & _
        & Hrecord & Hlen & Hsame & _ & _ & _ & _ & _ & Hbytes & Hsize).
  assert (tracker' = tracker) as -> by congruence.
  apply Hsame in Hget as ->.
  set (w1 := _onRequest t now obs request w) in *.
  assert (deref (heap w1) l' = record) as Hderef by (unfold deref; by rewrite Hrecord).
  split.
  - rewrite onResponses_keep_count.
    + by rewrite Hderef.
    + by left.
    + lia.
    + by rewrite Hderef, Hbytes.
  - rewrite onResponses_keep_count.
    + by rewrite Hderef.
    + by right.
    + lia.
    + by rewrite Hderef, Hsize.
Qed.

End CreatedRecords.

(** ** Well-formed stores *)

Lemma decimal_inj n m : decimal n = decimal m → n = m.
Proof.
  unfold decimal. intros Heq.
  apply (f_equal NilEmpty.uint_of_string) in Heq.
  rewrite !NilEmpty.usu in Heq. injection Heq as Heq.
  apply (f_equal N.of_uint) in Heq.
  by rewrite !DecimalN.Unsigned.of_to in Heq.
Qed.

Lemma storeWf_new h : storeWf newStorage h.
Proof. intros id l Hin. by apply elem_of_nil in Hin. Qed.

Lemma storeWf_next_free st h :
  storeWf st h →
  mapGet (requests st) ("req-" ++ decimal (requestCounter st + 1))%string = None.
Proof.
  intros Hwf.
  destruct (mapGet (requests st) ("req-" ++ decimal (requestCounter st + 1))%string)
    as [l|] eqn:Hget; [|done].
  apply mapGet_Some_elem, Hwf in Hget as (_ & n & Hn & Heq).
  simpl in Heq. injection Heq as Heq. apply decimal_inj in Heq. lia.
Qed.

Lemma storeWf_grow st h ext : storeWf st h → storeWf st (h ++ ext).
Proof.
  intros Hwf id l Hin. destruct (Hwf id l Hin) as [Hl Hid].
  split; [rewrite length_app; lia | done].
Qed.


Lemma saveRequest_storeWf now data st h c st' h' :
  storeWf st h →
  saveRequest now data st h = (c, st', h') → storeWf st' h'.
Proof.
  intros Hwf Hsave. destruct c as [l|].
  - pose proof (storeWf_next_free _ _ Hwf) as Hfree.
    apply saveRequest_Normal in Hsave as (record & _ & -> & -> & Hreqs & Hctr & _).
    intros id l. rewrite Hreqs, mapSet_fresh by done.
    rewrite elem_of_app, list_elem_of_singleton, Hctr, length_app. simpl.
    intros [Hin | [= -> ->]].
    + destruct (Hwf id l Hin) as (Hl & n & Hn & ->).
      split; [lia |]. exists n. split; [lia | done].
    + split; [lia |]. eexists. split; [|done]. lia.
  - unfold saveRequest in Hsave. destruct (deriveOnSave _); [done |].
    injection Hsave as <- <-. intros id l Hin. simpl in *.
    destruct (Hwf id l Hin) as (Hl & n & Hn & ->).
    split; [done |]. exists n. split; [lia | done].
Qed.

Lemma updateRequest_storeWf id patch st h :
  storeWf st h → storeWf st (updateRequest id patch st h).2.
Proof.
  intros Hwf id' l Hin. rewrite updateRequest_heap_length. by apply Hwf.
Qed.

(** ** Usage *)


Lemma mapValues_elem {K V} (m : list (K * V)) (v : V) :
  v ∈ mapValues m → ∃ k, (k, v) ∈ m.
Proof.
  unfold mapValues. rewrite list_elem_of_fmap. intros ([k v'] & -> & Hin). by exists k.
Qed.

Section UsageFacts.
Context {host : Host}.

(** An empty store reports zero everywhere. *)
Lemma getUsage_empty h :
  getUsage newStorage h
  = {| totalRequests := 0; requestBytes := JInt 0; requestOriginalBytes := JInt 0;
       requestTruncated := JInt 0; responseBytes := JInt 0;
       responseOriginalBytes := JInt 0; responseTruncated := JInt 0;
       estimatedMemoryBytes := JInt 0 |}.
Proof. reflexivity. Qed.

(** The estimate is the sum of the two captured totals, for every store. *)
Lemma getUsage_estimate st h :
  estimatedMemoryBytes (getUsage st h)
  = jsAdd (requestBytes (getUsage st h)) (responseBytes (getUsage st h)).
Proof. reflexivity. Qed.










End UsageFacts.




Section UsageExample.
Context {host : Host}.


End UsageExample.

(** ** Sorting and copying *)

Section SortFacts.
Context {A : Type} (after : A → A → bool) (R : A → A → Prop) (P : A → Prop).
Hypothesis after_false : ∀ x y, P x → P y → after x y = false → R x y.
Hypothesis after_true : ∀ x y, P x → P y → after x y = true → R y x.
Hypothesis R_trans : ∀ x y z, P x → P y → P z → R x y → R y z → R x z.

Lemma insertSorted_perm x l : Permutation (insertSorted after x l) (x :: l).
Proof.
  induction l as [|y l IH]; simpl; [done |].
  destruct (after x y); [|done].
  rewrite IH. apply perm_swap.
Qed.

Lemma sortBy_perm l : Permutation (sortBy after l) l.
Proof.
  induction l as [|x l IH]; simpl; [done |].
  rewrite insertSorted_perm. by constructor.
Qed.

Lemma insertSorted_sorted x l :
  P x → Forall P l → StronglySorted R l → StronglySorted R (insertSorted after x l).
Proof.
  intros Hx HP Hsorted. induction Hsorted as [|y l Hsorted IH Hy]; simpl.
  - by repeat constructor.
  - apply Forall_cons in HP as [Py Pl].
    destruct (after x y) eqn:Hafter.
    + constructor; [by apply IH |].
      rewrite insertSorted_perm. constructor; [by apply after_true | done].
    + constructor; [by constructor |].
      pose proof (after_false x y Hx Py Hafter) as Hxy.
      constructor; [done |].
      rewrite Forall_forall in Hy, Pl |- *.
      intros z Hz. apply (R_trans x y z); auto.
Qed.

Lemma sortBy_sorted l : Forall P l → StronglySorted R (sortBy after l).
Proof.
  induction l as [|x l IH]; simpl; intros HP; [constructor |].
  apply Forall_cons in HP as [Px Pl].
  apply insertSorted_sorted; [done | | by apply IH].
  by rewrite sortBy_perm.
Qed.

End SortFacts.

Lemma deref_copies (h ext : Heap) :
  map (deref (h ++ ext)) (seq (length h) (length ext)) = ext.
Proof.
  apply list_eq. intros i. rewrite list_lookup_fmap.
  destruct (decide (i < length ext)%nat) as [Hi|Hi].
  - rewrite lookup_seq_lt by done. simpl. unfold deref.
    rewrite lookup_app_r by lia.
    replace (length h + i - length h)%nat with i by lia.
    destruct (lookup_lt_is_Some_2 ext i Hi) as [o Ho]. by rewrite Ho.
  - rewrite lookup_seq_ge by lia. simpl.
    symmetry. apply lookup_ge_None_2. lia.
Qed.

(** The copies are new objects, one per entry and in the entries' order,
    each holding the properties of its entry; nothing else changes. *)
Lemma copyEntries_spec (h : Heap) (entries : list loc) :
  Forall (fun l => (l < length h)%nat) entries →
  copyEntries h entries
  = (seq (length h) (length entries), h ++ map (deref h) entries).
Proof.
  revert h. induction entries as [|l entries IH]; intros h Hvalid; simpl.
  - by rewrite app_nil_r.
  - apply Forall_cons in Hvalid as [Hl Hvalid].
    rewrite IH.
    2: { eapply Forall_impl; [exact Hvalid |]. intros l' Hl'. simpl in *.
         rewrite length_app. simpl. lia. }
    rewrite length_app. simpl. rewrite <- app_assoc. simpl.
    replace (length h + 1)%nat with (S (length h)) by lia.
    do 3 f_equal.
    apply Forall_fmap_ext_1. eapply Forall_impl; [exact Hvalid |].
    intros l' Hl'. simpl in *. by rewrite deref_app_l.
Qed.

Lemma copyEntries_objects (h : Heap) (entries : list loc) :
  Forall (fun l => (l < length h)%nat) entries →
  map (deref (copyEntries h entries).2) (copyEntries h entries).1
  = map (deref h) entries.
Proof.
  intros Hvalid. rewrite copyEntries_spec by done. simpl.
  rewrite <- (length_map (deref h) entries). apply deref_copies.
Qed.

(** ** Timestamps *)

Lemma timestampOf_Some o q : timestampOf o = Some q → getProp o "timestamp" = JNum (Fin q).
Proof.
  unfold timestampOf. destruct (getProp o "timestamp") as [| | |[]| |]; try done.
  by intros [= ->].
Qed.

Lemma epochStore_timed st h : epochStore st h → timedStore st h.
Proof. intros Hep l Hl. destruct (Hep l Hl) as (q & Hq & _). by exists q. Qed.

Lemma numLt_zero_sub qa qb :
  numLt (Fin 0) (numSub (Fin qb) (Fin qa)) = true ↔ (qa < qb)%Q.
Proof.
  unfold numLt, numSub, numAdd, numNeg, numLe, numEq.
  rewrite andb_true_iff, negb_true_iff, Qle_bool_iff.
  rewrite <- not_true_iff_false, Qeq_bool_iff.
  rewrite !Qred_correct. split.
  - intros [Hle Hne]. lra.
  - intros Hlt. split; lra.
Qed.

Section TimestampFacts.
Context {host : Host}.

Lemma newerFirst_spec h a b qa qb :
  timestampOf (deref h a) = Some qa →
  timestampOf (deref h b) = Some qb →
  newerFirst h a b = true ↔ (qa < qb)%Q.
Proof.
  intros Ha%timestampOf_Some Hb%timestampOf_Some.
  unfold newerFirst, jsSub. rewrite Ha, Hb. simpl. apply numLt_zero_sub.
Qed.

(** On records with numeric capture times the comparator of
    [queryRequests] sorts most recent first. *)
Lemma sortBy_newerFirst h (ls : list loc) :
  Forall (fun l => ∃ q, timestampOf (deref h l) = Some q) ls →
  StronglySorted newestFirst (map (deref h) (sortBy (newerFirst h) ls)).
Proof.
  intros Htimed.
  apply (StronglySorted_fmap (deref h)
           (fun a b => newestFirst (deref h a) (deref h b))); [done |].
  apply (sortBy_sorted (newerFirst h) _
           (fun l => ∃ q, timestampOf (deref h l) = Some q)); [| | |done].
  - intros x y [qx Hx] [qy Hy] Hafter. exists qx, qy. repeat split; try done.
    apply Qnot_lt_le. intros Hlt.
    apply (newerFirst_spec h x y qx qy Hx Hy) in Hlt. congruence.
  - intros x y [qx Hx] [qy Hy] Hafter. exists qy, qx. repeat split; try done.
    apply Qlt_le_weak. by apply (newerFirst_spec h x y qx qy Hx Hy).
  - intros x y z _ _ _ (q1 & q2 & H1 & H2 & H12) (q2' & q3 & H2' & H3 & H23).
    exists q1, q3. repeat split; try done.
    assert (q2' = q2) as -> by congruence. by apply (Qle_trans _ q2).
Qed.

End TimestampFacts.

(** ** Queries *)

Lemma numLt_zero q : numLt (Fin 0) (Fin q) = true ↔ (0 < q)%Q.
Proof.
  unfold numLt, numLe, numEq.
  rewrite andb_true_iff, negb_true_iff, Qle_bool_iff.
  rewrite <- not_true_iff_false, Qeq_bool_iff. split; [intros []|intros; split]; lra.
Qed.

Lemma truncQ_bounds q : (0 < q)%Q → 0 ≤ truncQ q ∧ (inject_Z (truncQ q) <= q)%Q.
Proof.
  intros Hq. unfold truncQ.
  assert (Qle_bool 0 q = true) as -> by (apply Qle_bool_iff; lra).
  split; [|apply Qfloor_le].
  change 0 with (Qfloor 0). apply Qfloor_resp_le. lra.
Qed.

Lemma storeWf_values st h :
  storeWf st h → Forall (fun l => (l < length h)%nat) (mapValues (requests st)).
Proof.
  intros Hwf. apply Forall_forall. intros l [id Hin]%mapValues_elem.
  by apply (Hwf id l).
Qed.

Section QueryFacts.
Context {host : Host}.

(** The query with no filter key set, up to the sort. *)
Lemma queryRequests_unfiltered limit st h :
  queryRequests (<["limit" := limit]> ∅) st h
  = let sorted := sortBy (newerFirst h) (mapValues (requests st)) in
    let copied := copyEntries h (applyLimit limit sorted) in
    (Normal (length sorted, copied.1), copied.2).
Proof.
  unfold queryRequests.
  change (filterPageId _ h ?r) with r.
  change (filterUrlPattern _ h ?r) with r.
  change (filterMethod _ h ?r) with (Normal r).
  change (filterStatus _ h ?r) with r.
  change (filterResourceType _ h ?r) with r.
  change (filterSince _ h ?r) with r.
  change (filterSearch _ h ?r) with (Normal r).
  rewrite getProp_insert_eq. cbv zeta.
  by destruct (copyEntries h _).
Qed.

Lemma applyLimit_prefix limit (results : list loc) :
  applyLimit limit results `prefix_of` results.
Proof.
  unfold applyLimit. destruct limit as [| | |n| |]; try done.
  destruct (numLt (Fin 0) n); [|done]. destruct n; try done. apply prefix_take.
Qed.

Lemma queryRequests_by_selection filters st h :
  queryRequests filters st h
  = match selectRequests filters st h with
    | Throw => (Throw, h)
    | Normal sorted =>
        let copied := copyEntries h (applyLimit (getProp filters "limit") sorted) in
        (Normal (length sorted, copied.1), copied.2)
    end.
Proof.
  unfold queryRequests, selectRequests.
  destruct (filterMethod _ _ _) as [r3|]; [|done].
  destruct (filterSearch _ _ _) as [r7|]; [|done].
  cbv zeta. by destruct (copyEntries h _).
Qed.

(** The limit takes no part in the selection. *)
Lemma selectRequests_limit limit filters st h :
  selectRequests (<["limit" := limit]> filters) st h = selectRequests filters st h.
Proof.
  unfold selectRequests, filterPageId, filterUrlPattern, filterMethod, filterStatus,
    filterResourceType, filterSince, filterSearch.
  by rewrite !getProp_insert_ne by done.
Qed.

Lemma copyEntries_length h entries : length (copyEntries h entries).1 = length entries.
Proof.
  revert h. induction entries as [|l entries IH]; intros h; [done |].
  simpl. specialize (IH (h ++ [deref h l])).
  destruct (copyEntries (h ++ [deref h l]) entries). simpl in *. by rewrite IH.
Qed.

(** C6.  With no filter, [queryRequests] reports the size of the store as
    [total] and returns copies of the stored records, most recent first:
    all of them when no limit is given, and for a limit above zero the first
    [limit] (its integer part) of them, so never more than [limit].  The
    store is one whose records have numeric capture times.  With filters,
    whatever they are, a limit above zero leaves [total] at the number of
    records the filters select and returns at most [limit] of them. *)
Theorem queryRequests_no_filters
    (limit : JsVal) (st : RequestStorage) (h : Heap) :
  storeWf st h →
  timedStore st h →
  (∃ copies h' sorted,
     queryRequests (<["limit" := limit]> ∅) st h
       = (Normal (length (requests st), copies), h')
     ∧ sorted ≡ₚ map (deref h) (mapValues (requests st))
     ∧ StronglySorted newestFirst sorted
     ∧ map (deref h') copies `prefix_of` sorted
     ∧ (limit = JUndefined → map (deref h') copies = sorted)
     ∧ (∀ q, limit = JNum (Fin q) → (0 < q)%Q →
             map (deref h') copies = take (Z.to_nat (truncQ q)) sorted
             ∧ (inject_Z (Z.of_nat (length copies)) <= q)%Q))
  ∧ (∀ filters selected q,
       selectRequests filters st h = Normal selected →
       (0 < q)%Q →
       ∃ copies h',
         queryRequests (<["limit" := JNum (Fin q)]> filters) st h
           = (Normal (length selected, copies), h')
         ∧ length copies = (Z.to_nat (truncQ q) `min` length selected)%nat
         ∧ (inject_Z (Z.of_nat (length copies)) <= q)%Q).
Proof.
  intros Hwf Htimed. split.
  2: { intros filters selected q Hselect Hq.
       rewrite queryRequests_by_selection, selectRequests_limit, Hselect.
       rewrite getProp_insert_eq. cbv zeta. eexists _, _. split; [done |].
       rewrite copyEntries_length. unfold applyLimit.
       apply numLt_zero in Hq as Hlt. rewrite Hlt.
       destruct (truncQ_bounds q Hq) as [Hpos Hle].
       rewrite length_take. split; [done |].
       apply (Qle_trans _ (inject_Z (truncQ q))); [|done].
       rewrite <- Zle_Qle. lia. }
  set (values := mapValues (requests st)).
  set (sorted := sortBy (newerFirst h) values).
  assert (sorted ≡ₚ values) as Hperm by apply sortBy_perm.
  assert (Forall (fun l => (l < length h)%nat) sorted) as Hvalid.
  { rewrite Hperm. by apply storeWf_values. }
  assert (∀ ls, ls `prefix_of` sorted → Forall (fun l => (l < length h)%nat) ls)
    as Hprefix.
  { intros ls [rest ->]. by apply Forall_app in Hvalid as [? _]. }
  pose proof (applyLimit_prefix limit sorted) as Hlimited.
  exists (copyEntries h (applyLimit limit sorted)).1,
         (copyEntries h (applyLimit limit sorted)).2,
         (map (deref h) sorted).
  split; [|split; [|split; [|split; [|split]]]].
  - rewrite queryRequests_unfiltered. cbv zeta. fold values sorted.
    assert (length sorted = length (requests st)) as ->; [|done].
    rewrite (Permutation_length Hperm). unfold values, mapValues. apply length_map.
  - by apply Permutation_map.
  - apply sortBy_newerFirst. apply Forall_forall. intros l Hl. by apply Htimed.
  - rewrite copyEntries_objects by auto.
    destruct Hlimited as [rest Hrest]. exists (map (deref h) rest).
    by rewrite <- map_app, <- Hrest.
  - intros ->. by rewrite copyEntries_objects by auto.
  - intros q -> Hq. rewrite copyEntries_objects by auto.
    rewrite copyEntries_spec by auto. simpl.
    apply numLt_zero in Hq as Hlt. rewrite Hlt.
    destruct (truncQ_bounds q Hq) as [Hpos Hle].
    split; [by rewrite <- fmap_take |].
    rewrite length_seq, length_take.
    apply (Qle_trans _ (inject_Z (truncQ q))); [|done].
    rewrite <- Zle_Qle. lia.
Qed.

End QueryFacts.

Lemma filter_ext_elem {A} (P1 P2 : A → Prop)
    `{∀ x, Decision (P1 x)} `{∀ x, Decision (P2 x)} (l : list A) :
  (∀ x, x ∈ l → P1 x ↔ P2 x) → filter P1 l = filter P2 l.
Proof.
  induction l as [|x l IH]; intros Hext; [done |].
  rewrite !filter_cons.
  rewrite IH by (intros y Hy; apply Hext; by right).
  destruct (decide (P1 x)) as [H1|H1], (decide (P2 x)) as [H2|H2]; try done.
  - apply Hext in H1; [done | left].
  - apply Hext in H2; [done | left].
Qed.

Lemma filter_all {A} (P : A → Prop) `{∀ x, Decision (P x)} (l : list A) :
  (∀ x, x ∈ l → P x) → filter P l = l.
Proof.
  induction l as [|x l IH]; intros Hall; [done |].
  rewrite filter_cons, decide_True by (apply Hall; left).
  rewrite IH; [done |]. intros y Hy. apply Hall. by right.
Qed.

Section SinceFacts.
Context {host : Host}.

(** The query with only [since] set. *)
Lemma queryRequests_since_only since st h :
  queryRequests (<["since" := since]> ∅) st h
  = let filtered := filterSince (<["since" := since]> ∅) h (mapValues (requests st)) in
    let sorted := sortBy (newerFirst h) filtered in
    let copied := copyEntries h sorted in
    (Normal (length sorted, copied.1), copied.2).
Proof.
  unfold queryRequests.
  change (filterPageId _ h ?r) with r.
  change (filterUrlPattern _ h ?r) with r.
  change (filterMethod _ h ?r) with (Normal r).
  change (filterStatus _ h ?r) with r.
  change (filterResourceType _ h ?r) with r.
  change (filterSearch _ h ?r) with (Normal r).
  change (getProp (<["since" := since]> ∅) "limit") with JUndefined.
  cbv zeta. unfold applyLimit.
  by destruct (copyEntries h _).
Qed.

(** The query with no key at all. *)
Lemma queryRequests_empty st h :
  queryRequests ∅ st h
  = let sorted := sortBy (newerFirst h) (mapValues (requests st)) in
    let copied := copyEntries h sorted in
    (Normal (length sorted, copied.1), copied.2).
Proof.
  unfold queryRequests.
  change (filterPageId _ h ?r) with r.
  change (filterUrlPattern _ h ?r) with r.
  change (filterMethod _ h ?r) with (Normal r).
  change (filterStatus _ h ?r) with r.
  change (filterResourceType _ h ?r) with r.
  change (filterSince _ h ?r) with r.
  change (filterSearch _ h ?r) with (Normal r).
  change (getProp ∅ "limit") with JUndefined.
  cbv zeta. unfold applyLimit.
  by destruct (copyEntries h _).
Qed.

(** With epoch capture times, a bound [q] keeps the records at or after
    [q]; the bound 0, which the code reads as "no bound", keeps them all,
    and so does the filter it stands for. *)
Lemma filterSince_bound since q st h :
  epochStore st h →
  since = JNum (Fin q) ∨ (∃ s, since = JStr s ∧ s ≠ "" ∧ DateParse s = Fin q) →
  filterSince (<["since" := since]> ∅) h (mapValues (requests st))
  = filter (fun l => atOrAfter q (deref h l) = true) (mapValues (requests st)).
Proof.
  intros Hepoch Hsince. unfold filterSince. rewrite getProp_insert_eq.
  assert (truthy since = truthy (JNum (Fin q)) ∨ truthy since = true) as Htruthy.
  { destruct Hsince as [-> | (s & -> & Hs & _)]; [by left | right].
    simpl. by destruct s. }
  assert (normalizeTimestamp since = Some (Fin q)) as Hnorm.
  { destruct Hsince as [-> | (s & -> & _ & Hparse)]; [done |].
    simpl. by rewrite Hparse. }
  assert (∀ l, l ∈ mapValues (requests st) →
               numLe (Fin q) (toNumber (getProp (deref h l) "timestamp")) = true
               ↔ atOrAfter q (deref h l) = true) as Hsame.
  { intros l Hl. destruct (Hepoch l Hl) as (t & Ht & _).
    unfold atOrAfter. rewrite Ht. apply timestampOf_Some in Ht. by rewrite Ht. }
  assert (truthy (JNum (Fin q)) = false →
          filter (fun l => atOrAfter q (deref h l) = true) (mapValues (requests st))
          = mapValues (requests st)) as Hzero.
  { simpl. rewrite negb_false_iff. intros Hq%Qeq_bool_iff.
    apply filter_all. intros l Hl. destruct (Hepoch l Hl) as (t & Ht & Hpos).
    unfold atOrAfter. rewrite Ht. apply Qle_bool_iff. lra. }
  rewrite Hnorm.
  destruct (truthy (JNum (Fin q))) eqn:Hq.
  - assert (truthy since = true) as -> by (by destruct Htruthy).
    by apply filter_ext_elem.
  - rewrite Hzero by done. by destruct (truthy since).
Qed.

(** C7.  On a store of records captured at epoch times: [since] given as a
    number of milliseconds, or as a string the host parses to one, keeps
    exactly the records whose timestamp is at or after it and drops every
    earlier one; a string that is no date leaves the query as it is without
    [since], and the query completes normally. *)
Theorem queryRequests_since (since : JsVal) (st : RequestStorage) (h : Heap) :
  storeWf st h →
  epochStore st h →
  (∀ q, since = JNum (Fin q) ∨ (∃ s, since = JStr s ∧ s ≠ "" ∧ DateParse s = Fin q) →
        ∃ copies h',
          queryRequests (<["since" := since]> ∅) st h
            = (Normal (length copies, copies), h')
          ∧ map (deref h') copies
              ≡ₚ map (deref h)
                   (filter (fun l => atOrAfter q (deref h l) = true)
                           (mapValues (requests st)))
          ∧ StronglySorted newestFirst (map (deref h') copies))
  ∧ (∀ s, since = JStr s → DateParse s = NaN →
          queryRequests (<["since" := since]> ∅) st h = queryRequests ∅ st h
          ∧ ∃ result h',
              queryRequests (<["since" := since]> ∅) st h = (Normal result, h')).
Proof.
  intros Hwf Hepoch. split.
  - intros q Hsince.
    rewrite queryRequests_since_only. cbv zeta.
    rewrite (filterSince_bound since q st h Hepoch Hsince).
    set (kept := filter (fun l => atOrAfter q (deref h l) = true)
                        (mapValues (requests st))).
    set (sorted := sortBy (newerFirst h) kept).
    assert (sorted ≡ₚ kept) as Hperm by apply sortBy_perm.
    assert (Forall (fun l => (l < length h)%nat) sorted) as Hvalid.
    { apply Forall_forall. intros l Hl. rewrite Hperm in Hl.
      apply list_elem_of_filter in Hl as [_ Hl].
      pose proof (storeWf_values st h Hwf) as Hall.
      rewrite Forall_forall in Hall. by apply Hall. }
    exists (copyEntries h sorted).1, (copyEntries h sorted).2.
    rewrite copyEntries_objects by done.
    split; [|split].
    + rewrite copyEntries_spec by done. simpl. by rewrite length_seq.
    + by apply Permutation_map.
    + apply sortBy_newerFirst. apply Forall_forall. intros l Hl.
      apply list_elem_of_filter in Hl as [_ Hl].
      destruct (Hepoch l Hl) as (t & Ht & _). by exists t.
  - intros s -> Hparse.
    assert (queryRequests (<["since" := JStr s]> ∅) st h = queryRequests ∅ st h) as Heq.
    { rewrite queryRequests_since_only, queryRequests_empty. cbv zeta.
      unfold filterSince. rewrite getProp_insert_eq. simpl. rewrite Hparse.
      by destruct (s =? "")%string. }
    split; [done |]. rewrite Heq, queryRequests_empty. cbv zeta. by eexists _, _.
Qed.

End SinceFacts.

(** ** What a query hands out *)

Lemma storedState_agree st h h2 :
  storeWf st h →
  storeClosed st h →
  (∀ a, (a < length h)%nat → deref h2 a = deref h a) →
  storedState st h2 = storedState st h.
Proof.
  intros Hwf Hclosed Hagree. unfold storedState.
  apply Forall_fmap_ext_1, Forall_forall. intros [id l] Hin. simpl.
  destruct (Hwf id l Hin) as [Hl _].
  rewrite (Hagree l Hl). f_equal. unfold nestedObjects.
  apply omap_ext. intros k v Hk. destruct v as [| | | | |a]; try done.
  f_equal. apply Hagree. apply (Hclosed l) with k; [|done].
  unfold mapValues. apply list_elem_of_fmap. by exists (id, l).
Qed.

Lemma filterC_subseteq {A} (f : A → Completion bool) (xs ys : list A) :
  filterC f xs = Normal ys → ys ⊆ xs.
Proof.
  revert ys. induction xs as [|x xs IH]; simpl; intros ys Hf.
  - by injection Hf as <-.
  - destruct (f x) as [keep|]; simpl in Hf; [|done].
    destruct (filterC f xs) as [rest|]; simpl in Hf; [|done].
    injection Hf as <-. specialize (IH rest eq_refl).
    destruct keep; [by apply list_subseteq_skip | by apply list_subseteq_cons].
Qed.

Lemma filter_subseteq {A} (P : A → Prop) `{∀ x, Decision (P x)} (l : list A) :
  filter P l ⊆ l.
Proof. intros x Hx. by apply list_elem_of_filter in Hx as [_ ?]. Qed.

Section ResultFacts.
Context {host : Host}.

(** Whatever the filters, a query that completes copies some of the stored
    records and nothing else. *)
Lemma queryRequests_selects filters st h total copies h' :
  queryRequests filters st h = (Normal (total, copies), h') →
  ∃ selected, selected ⊆ mapValues (requests st)
              ∧ copyEntries h selected = (copies, h').
Proof.
  unfold queryRequests. intros Hq.
  set (r0 := mapValues (requests st)) in *.
  set (r1 := filterPageId filters h r0) in *.
  set (r2 := filterUrlPattern filters h r1) in *.
  assert (r1 ⊆ r0) as S1.
  { unfold r1, filterPageId. destruct (truthy _); [apply filter_subseteq | done]. }
  assert (r2 ⊆ r1) as S2.
  { unfold r2, filterUrlPattern. destruct (truthy _); [|done].
    destruct (makeWildcardRegExp _); [apply filter_subseteq | done]. }
  destruct (filterMethod filters h r2) as [r3|] eqn:H3; [|done].
  assert (r3 ⊆ r2) as S3.
  { unfold filterMethod in H3. destruct (truthy _).
    - by apply filterC_subseteq in H3.
    - by injection H3 as <-. }
  set (r4 := filterStatus filters h r3) in *.
  set (r5 := filterResourceType filters h r4) in *.
  set (r6 := filterSince filters h r5) in *.
  assert (r4 ⊆ r3) as S4.
  { unfold r4, filterStatus. destruct (isNumber _); [apply filter_subseteq | done]. }
  assert (r5 ⊆ r4) as S5.
  { unfold r5, filterResourceType. destruct (truthy _); [apply filter_subseteq | done]. }
  assert (r6 ⊆ r5) as S6.
  { unfold r6, filterSince. destruct (truthy _); [|done].
    destruct (normalizeTimestamp _); [|done].
    destruct (truthy _); [apply filter_subseteq | done]. }
  destruct (filterSearch filters h r6) as [r7|] eqn:H7; [|done].
  assert (r7 ⊆ r6) as S7.
  { unfold filterSearch in H7. destruct (truthy _); [|by injection H7 as <-].
    destruct (makeSearchRegExp _) as [[test|]|]; simpl in H7; try done.
    - injection H7 as <-. apply filter_subseteq.
    - by injection H7 as <-. }
  cbv zeta in Hq.
  set (limited := applyLimit _ _) in *.
  destruct (copyEntries h limited) as [cs hc] eqn:Hcopy.
  injection Hq as _ <- <-.
  exists limited. split; [|done].
  assert (limited ⊆ r7) as S8.
  { intros x Hx. unfold limited in Hx.
    destruct (applyLimit_prefix (getProp filters "limit") (sortBy (newerFirst h) r7))
      as [rest Hrest].
    assert (x ∈ sortBy (newerFirst h) r7) as Hs
      by (rewrite Hrest; apply elem_of_app; by left).
    by rewrite sortBy_perm in Hs. }
  intros x Hx. by apply S1, S2, S3, S4, S5, S6, S7, S8.
Qed.

(** C5, as the code has it.  The records a query returns are new objects,
    each with the properties of one stored record (so an object under
    [requestHeaders], [responseHeaders] or [timing] is the stored record's
    own).  Whatever a caller then writes into a returned record itself, the
    state the store holds is what it was. *)
Theorem queryRequests_returns_shallow_copies
    (filters : Obj) (st : RequestStorage) (h : Heap)
    (total : nat) (copies : list loc) (h' : Heap) :
  storeWf st h →
  storeClosed st h →
  queryRequests filters st h = (Normal (total, copies), h') →
  storedState st h' = storedState st h
  ∧ Forall (fun r => (length h ≤ r < length h')%nat
                     ∧ ∃ l, l ∈ mapValues (requests st) ∧ deref h' r = deref h l)
           copies
  ∧ ∀ r o', r ∈ copies → storedState st (<[r := o']> h') = storedState st h'.
Proof.
  intros Hwf Hclosed Hq.
  apply queryRequests_selects in Hq as (selected & Hsub & Hcopy).
  assert (Forall (fun l => (l < length h)%nat) selected) as Hvalid.
  { apply Forall_forall. intros l Hl%Hsub.
    pose proof (storeWf_values st h Hwf) as Hall.
    rewrite Forall_forall in Hall. by apply Hall. }
  rewrite copyEntries_spec in Hcopy by done. injection Hcopy as <- <-.
  assert (storedState st (h ++ map (deref h) selected) = storedState st h) as Hsame.
  { apply storedState_agree; try done. intros a Ha. by apply deref_app_l. }
  split; [done |]. split.
  - apply Forall_forall. intros r Hr.
    apply elem_of_seq in Hr as [Hlo Hhi].
    rewrite length_app, length_map. split; [lia |].
    assert (∃ i, r = (length h + i)%nat ∧ (i < length selected)%nat) as (i & -> & Hi)
      by (exists (r - length h)%nat; lia).
    destruct (lookup_lt_is_Some_2 selected i Hi) as [l Hl].
    exists l. split; [apply Hsub; by eapply list_elem_of_lookup_2 |].
    unfold deref at 1. rewrite lookup_app_r by lia.
    replace (length h + i - length h)%nat with i by lia.
    by rewrite list_lookup_fmap, Hl.
  - intros r o' Hr. rewrite Hsame.
    apply elem_of_seq in Hr as [Hlo Hhi].
    apply storedState_agree; try done. intros a Ha.
    rewrite deref_insert_ne by lia. by apply deref_app_l.
Qed.

End ResultFacts.

(** C5 as stated fails: after one captured request, the query returns one
    record (the object at address 2) whose [requestHeaders] is the object at
    address 0, the header object of the stored record; a caller that adds a
    header there has changed what the store holds. *)
Lemma nested_mutation_reaches_store :
  let w1 := (attachPage 0 0 examplePage initialWorld).2 in
  let w2 := _onRequest 0 1000 examplePage
              (exampleRequest 7 "http://x/" (JStr "hello")) w1 in
  let st := getStorage w2 0 in
  let result := queryRequests (host := sampleHost) ∅ st (heap w2) in
  result.1 = Normal (1%nat, [2%nat])
  ∧ getProp (deref result.2 2) "requestHeaders" = JRef 0
  ∧ storedState st (assignProp result.2 0 "cookie" (JStr "stolen"))
    ≠ storedState st result.2.
Proof.
  intros w1 w2 st result.
  split; [vm_compute; reflexivity |].
  split; [vm_compute; reflexivity |].
  intros Heq.
  apply (f_equal (fun s => match s with
                           | [(_, _, nested)] =>
                               (fun o => getProp o "cookie") <$> nested !! "requestHeaders"
                           | _ => None
                           end)) in Heq.
  vm_compute in Heq. discriminate.
Qed.

(** ** Wildcards *)

Lemma meta_char c :
  isWildcardMeta c = true → isSyntaxChar c = true ∧ Ascii.eqb c "*" = false.
Proof.
  destruct c as [[] [] [] [] [] [] [] []]; vm_compute; intros; try discriminate; auto.
Qed.

Lemma ordinary_char c :
  isWildcardMeta c = false → Ascii.eqb c "*" = false → Ascii.eqb c "?" = false →
  isSyntaxChar c = false ∧ Ascii.eqb c "\" = false ∧ Ascii.eqb c "." = false.
Proof.
  destruct c as [[] [] [] [] [] [] [] []]; vm_compute; intros; try discriminate; auto.
Qed.

Lemma lexRegExp_wildcard p :
  containsChar "?" p = false →
  lexRegExp (replaceStars (escapeWildcard p)) = Pattern (tokensOf p).
Proof.
  induction p as [|c p IH]; [done |]. simpl. intros Hq.
  apply orb_false_iff in Hq as [Hc Hq]. specialize (IH Hq).
  destruct (Ascii.eqb c "*") eqn:Hstar.
  - apply Ascii.eqb_eq in Hstar as ->. simpl. by rewrite IH.
  - destruct (isWildcardMeta c) eqn:Hmeta.
    + destruct (meta_char c Hmeta) as [Hsyn _]. simpl.
      rewrite Hstar. simpl. by rewrite Hsyn, IH.
    + destruct (ordinary_char c Hmeta Hstar Hc) as (Hsyn & Hback & Hdot). simpl.
      rewrite Hstar. simpl. by rewrite Hback, Hdot, Hstar, Hc, Hsyn, IH.
Qed.

Lemma parseTerms_wildcard pending p :
  parseTerms pending (tokensOf p) = Some (flush pending ++ piecesOf p).
Proof.
  revert pending. induction p as [|c p IH]; intros pending; simpl.
  - by rewrite app_nil_r.
  - destruct (Ascii.eqb c "*"); simpl; by rewrite IH.
Qed.

Lemma parsePieces_wildcard p : parsePieces (tokensOf p) = Pattern (piecesOf p).
Proof. unfold parsePieces. by rewrite parseTerms_wildcard. Qed.

Lemma compileRegExp_wildcard p :
  containsChar "?" p = false →
  compileRegExp (replaceStars (escapeWildcard p)) = Pattern (piecesOf p).
Proof.
  intros Hq. unfold compileRegExp. rewrite lexRegExp_wildcard by done.
  apply parsePieces_wildcard.
Qed.

Section MatcherFacts.
Variable canon : ascii → ascii.

Lemma matchHere_star a rest s :
  matchHere canon ((a, Star) :: rest) s
  = matchHere canon rest s
    || match s with
       | String c s' => atomMatches canon a c && matchHere canon ((a, Star) :: rest) s'
       | EmptyString => false
       end.
Proof. by destruct s. Qed.

(** A match of the compiled pattern at the start of [s] is an instance of
    the wildcard followed by anything. *)
Lemma matchHere_sound p s :
  matchHere canon (piecesOf p) s = true →
  ∃ mid post, s = (mid ++ post)%string ∧ wildcardMatches canon p mid.
Proof.
  revert s. induction p as [|d p IH]; intros s.
  - intros _. exists ""%string, s. split; [done | constructor].
  - cbn [piecesOf]. destruct (Ascii.eqb d "*") eqn:Hd.
    + apply Ascii.eqb_eq in Hd as ->.
      induction s as [|c s IHs]; rewrite matchHere_star.
      * rewrite orb_false_r. intros (mid & post & -> & Hm)%IH.
        exists mid, post. split; [done | by constructor].
      * intros [Hskip | [Hc Hmore]%andb_true_iff]%orb_true_iff.
        -- apply IH in Hskip as (mid & post & -> & Hm).
           exists mid, post. split; [done | by constructor].
        -- apply IHs in Hmore as (mid & post & -> & Hm).
           exists (String c mid), post. split; [done |].
           apply wm_star_more; [|done]. simpl in Hc. by apply negb_true_iff.
    + destruct s as [|c s]; simpl; [done |].
      intros [Hc Hrest]%andb_true_iff.
      apply IH in Hrest as (mid & post & -> & Hm).
      exists (String c mid), post. split; [done |].
      apply wm_char; [|by apply Ascii.eqb_eq | done].
      intros ->. by rewrite Ascii.eqb_refl in Hd.
Qed.

Lemma matchHere_complete p mid post :
  wildcardMatches canon p mid →
  matchHere canon (piecesOf p) (mid ++ post) = true.
Proof.
  induction 1 as [|p t Hm IH|p c t Hc Hm IH|d p c t Hd Hcanon Hm IH].
  - done.
  - cbn [piecesOf]. rewrite Ascii.eqb_refl, matchHere_star. by rewrite IH.
  - cbn [piecesOf] in *. rewrite Ascii.eqb_refl in *.
    change (String c t ++ post)%string with (String c (t ++ post)%string).
    rewrite matchHere_star, IH. unfold atomMatches. rewrite Hc.
    apply orb_true_r.
  - cbn [piecesOf]. assert (Ascii.eqb d "*" = false) as ->.
    { apply not_true_iff_false. by intros ->%Ascii.eqb_eq. }
    simpl. rewrite IH, Hcanon, Ascii.eqb_refl. done.
Qed.

Lemma regexTest_offset ps s :
  regexTest canon ps s = true ↔
  ∃ pre rest, s = (pre ++ rest)%string ∧ matchHere canon ps rest = true.
Proof.
  induction s as [|c s IH]; simpl.
  - rewrite orb_false_r. split.
    + intros Hm. by exists ""%string, ""%string.
    + intros (pre & rest & Hs & Hm). destruct pre; [|discriminate].
      change (""%string = rest) in Hs. by rewrite Hs.
  - rewrite orb_true_iff, IH. split.
    + intros [Hm | (pre & rest & -> & Hm)].
      * by exists ""%string, (String c s).
      * by exists (String c pre), rest.
    + intros (pre & rest & Hs & Hm). destruct pre as [|c' pre].
      * change (String c s = rest) in Hs. subst. by left.
      * change (String c s = String c' (pre ++ rest)%string) in Hs.
        injection Hs as -> ->. right. by exists pre, rest.
Qed.

(** [test] of the compiled wildcard: some part of the text is an instance. *)
Lemma regexTest_wildcard p s :
  regexTest canon (piecesOf p) s = true ↔
  ∃ pre mid post, s = (pre ++ mid ++ post)%string ∧ wildcardMatches canon p mid.
Proof.
  rewrite regexTest_offset. split.
  - intros (pre & rest & -> & (mid & post & -> & Hm)%matchHere_sound).
    by exists pre, mid, post.
  - intros (pre & mid & post & -> & Hm).
    exists pre, (mid ++ post)%string. split; [done | by apply matchHere_complete].
Qed.

End MatcherFacts.

Section WildcardFacts.
Context {host : Host}.

(** C4, as the code has it.  For a pattern without [?], the [urlPattern]
    filter keeps a record exactly when some part of its [url] is an instance
    of the pattern, where [*] stands for any run of characters other than line
    terminators, every other character (the regular-expression
    metacharacters included) stands for itself, and letter case is ignored.
    The match is not anchored at either end of the url. *)
Theorem urlPattern_is_unanchored_wildcard (p : string) :
  containsChar "?" p = false →
  ∃ test,
    makeWildcardRegExp (JStr p) = Some test
    ∧ (∀ url, test url = true ↔
              ∃ pre mid post, url = (pre ++ mid ++ post)%string
                              ∧ wildcardMatches Canonicalize p mid)
    ∧ (p ≠ ""%string →
       ∀ h results,
         filterUrlPattern (<["urlPattern" := JStr p]> ∅) h results
         = filter (fun l => test (toString (getProp (deref h l) "url")) = true) results).
Proof.
  intros Hq. exists (regexTest Canonicalize (piecesOf p)).
  assert (makeWildcardRegExp (JStr p) = Some (regexTest Canonicalize (piecesOf p)))
    as Hmake.
  { unfold makeWildcardRegExp. by rewrite compileRegExp_wildcard. }
  split; [done |]. split.
  - intros url. apply regexTest_wildcard.
  - intros Hp h results. unfold filterUrlPattern.
    rewrite getProp_insert_eq, Hmake.
    assert (truthy (JStr p) = true) as -> by (by destruct p). done.
Qed.

End WildcardFacts.

(** C4 as stated fails: the pattern [*.png] matches the url
    [http://x/a.png.js], and a query with that pattern returns the record
    that has this url. *)
Lemma urlPattern_png_matches_png_js :
  let h := [ ({[ "url" := JStr "http://x/a.png.js" ]} : Obj) ] in
  let st := {| requests := [("req-1", 0%nat)]; requestCounter := 1;
               activePageMonitors := [] |} in
  ((fun test => test "http://x/a.png.js")
     <$> makeWildcardRegExp (host := sampleHost) (JStr "*.png")) = Some true
  ∧ ((fun test => test "http://x/a.png")
       <$> makeWildcardRegExp (host := sampleHost) (JStr "*.png")) = Some true
  ∧ (queryRequests (host := sampleHost) (<["urlPattern" := JStr "*.png"]> ∅) st h).1
    = Normal (1%nat, [1%nat]).
Proof. repeat split; vm_compute; reflexivity. Qed.

(** ** A store to run the theorems on *)

Ltac each_record H :=
  repeat (apply elem_of_cons in H as [H|H]; [try injection H as -> -> |]);
  [ .. | by apply elem_of_nil in H ].

Lemma exampleStore_wf : storeWf exampleStore exampleHeap.
Proof.
  intros id l Hin. simpl in Hin. each_record Hin.
  - split; [simpl; lia |]. exists 1%N. split; [simpl; lia | reflexivity].
  - split; [simpl; lia |]. exists 2%N. split; [simpl; lia | reflexivity].
  - split; [simpl; lia |]. exists 3%N. split; [simpl; lia | reflexivity].
Qed.

Lemma exampleStore_epoch : epochStore exampleStore exampleHeap.
Proof.
  intros l Hl. simpl in Hl. each_record Hl; subst l.
  - exists (inject_Z 1735689599999). split; [reflexivity | by apply Qle_bool_imp_le].
  - exists (inject_Z 1735689600001). split; [reflexivity | by apply Qle_bool_imp_le].
  - exists (inject_Z 1735689600000). split; [reflexivity | by apply Qle_bool_imp_le].
Qed.

Lemma exampleStore_closed : storeClosed exampleStore exampleHeap.
Proof.
  intros l Hl k a Hk. simpl in Hl. each_record Hl; subst l.
  all: unfold deref, exampleHeap in Hk; cbn [lookup list_lookup default from_option id] in Hk.
  all: repeat (apply lookup_insert_Some in Hk as [[_ Hk] | [_ Hk]]; [discriminate |]).
  all: apply lookup_singleton_Some in Hk as [_ Hk]; try discriminate.
  injection Hk as <-. simpl. lia.
Qed.

(** ** The theorems at concrete inputs *)

Section Examples.
#[local] Existing Instance sampleHost.


(** C4 on the pattern [*.png]. *)
Lemma urlPattern_is_unanchored_wildcard_example :
  ∃ test,
    makeWildcardRegExp (host := sampleHost) (JStr "*.png") = Some test
    ∧ (∀ url, test url = true ↔
              ∃ pre mid post, url = (pre ++ mid ++ post)%string
                              ∧ wildcardMatches upperAscii "*.png" mid)
    ∧ ("*.png"%string ≠ ""%string →
       ∀ h results,
         filterUrlPattern (host := sampleHost) (<["urlPattern" := JStr "*.png"]> ∅)
           h results
         = filter (fun l => test (toString (getProp (deref h l) "url")) = true) results).
Proof.
  apply (urlPattern_is_unanchored_wildcard (host := sampleHost) "*.png").
  reflexivity.
Defined.

(** C5 on the example store, queried without filters. *)
Lemma queryRequests_returns_shallow_copies_example :
  let result := queryRequests (host := sampleHost) ∅ exampleStore exampleHeap in
  ∃ total copies,
    result.1 = Normal (total, copies)
    ∧ storedState exampleStore result.2 = storedState exampleStore exampleHeap
    ∧ Forall (fun r => (length exampleHeap ≤ r < length result.2)%nat
                       ∧ ∃ l, l ∈ mapValues (requests exampleStore)
                              ∧ deref result.2 r = deref exampleHeap l)
             copies
    ∧ ∀ r o', r ∈ copies →
              storedState exampleStore (<[r := o']> result.2)
              = storedState exampleStore result.2.
Proof.
  intros result.
  exists 3%nat, [4; 5; 6]%nat.
  assert (result.1 = Normal (3%nat, [4; 5; 6]%nat)) as Hresult
    by (vm_compute; reflexivity).
  split; [exact Hresult |].
  apply (queryRequests_returns_shallow_copies (host := sampleHost)
           ∅ exampleStore exampleHeap 3 [4; 5; 6]%nat result.2
           exampleStore_wf exampleStore_closed).
  rewrite <- Hresult. exact (surjective_pairing result).
Defined.

(** C6 on the example store, with a limit of two and a half. *)
Lemma queryRequests_no_filters_example :
  ∃ copies h' sorted,
    queryRequests (host := sampleHost) (<["limit" := JNum (Fin (5 # 2))]> ∅)
      exampleStore exampleHeap
      = (Normal (length (requests exampleStore), copies), h')
    ∧ sorted ≡ₚ map (deref exampleHeap) (mapValues (requests exampleStore))
    ∧ StronglySorted newestFirst sorted
    ∧ map (deref h') copies `prefix_of` sorted
    ∧ (JNum (Fin (5 # 2)) = JUndefined → map (deref h') copies = sorted)
    ∧ (∀ q, JNum (Fin (5 # 2)) = JNum (Fin q) → (0 < q)%Q →
            map (deref h') copies = take (Z.to_nat (truncQ q)) sorted
            ∧ (inject_Z (Z.of_nat (length copies)) <= q)%Q).
Proof.
  apply (queryRequests_no_filters (host := sampleHost) (JNum (Fin (5 # 2)))
           exampleStore exampleHeap exampleStore_wf).
  intros l Hl. destruct (exampleStore_epoch l Hl) as (q & Hq & _). by exists q.
Defined.

(** C7 on the example store, with the bound of the specification. *)
Lemma queryRequests_since_example :
  let since := JStr "2025-01-01T00:00:00Z" in
  (∀ q, since = JNum (Fin q)
        ∨ (∃ s, since = JStr s ∧ s ≠ ""%string
                ∧ DateParse (Host := sampleHost) s = Fin q) →
        ∃ copies h',
          queryRequests (host := sampleHost) (<["since" := since]> ∅)
            exampleStore exampleHeap
            = (Normal (length copies, copies), h')
          ∧ map (deref h') copies
              ≡ₚ map (deref exampleHeap)
                   (filter (fun l => atOrAfter q (deref exampleHeap l) = true)
                           (mapValues (requests exampleStore)))
          ∧ StronglySorted newestFirst (map (deref h') copies))
  ∧ (∀ s, since = JStr s → DateParse (Host := sampleHost) s = NaN →
          queryRequests (host := sampleHost) (<["since" := since]> ∅)
            exampleStore exampleHeap
          = queryRequests (host := sampleHost) ∅ exampleStore exampleHeap
          ∧ ∃ result h',
              queryRequests (host := sampleHost) (<["since" := since]> ∅)
                exampleStore exampleHeap = (Normal result, h')).
Proof.
  exact (queryRequests_since (host := sampleHost) (JStr "2025-01-01T00:00:00Z")
           exampleStore exampleHeap exampleStore_wf exampleStore_epoch).
Defined.

(** C10 on one request and its response. *)
Lemma response_counts_stay_zero_example :
  let w := (attachPage 0 0 examplePage initialWorld).2 in
  let w1 := _onRequest 0 1000 examplePage
              (exampleRequest 7 "http://x/api" (JStr "ping")) w in
  let w2 := fold_left (fun w e => _onResponse (host := sampleHost) e.1.1 e.1.2 e.2 w)
              [(0%nat, examplePage, exampleResponse 7 (JStr "pong"))] w1 in
  getProp (deref (heap w2) 1) "responseBodyBytes" = JInt 0
  ∧ getProp (deref (heap w2) 1) "responseBodySize" = JInt 0.
Proof.
  refine (response_counts_stay_zero (host := sampleHost) 0 1000 examplePage
            (exampleRequest 7 "http://x/api" (JStr "ping"))
            (attachPage 0 0 examplePage initialWorld).2 "req-1" _ 1%nat
            [(0%nat, examplePage, exampleResponse 7 (JStr "pong"))] _ _ _ _).
  - vm_compute. reflexivity.
  - vm_compute. reflexivity.
  - vm_compute. reflexivity.
  - vm_compute. reflexivity.
Defined.

End Examples.

(** ** The grammar read here covers [makeWildcardRegExp] *)

Lemma parsePieces_read ts : parsePieces ts ≠ Unread.
Proof. unfold parsePieces. by destruct (parseTerms NoTerm ts). Qed.

Lemma lexRegExp_wildcard_read p :
  ∃ ts, lexRegExp (replaceStars (escapeWildcard p)) = Pattern ts.
Proof.
  induction p as [|c p [ts IH]]; [by exists [] |]. simpl.
  destruct (Ascii.eqb c "*") eqn:Hstar.
  - apply Ascii.eqb_eq in Hstar as ->. simpl. rewrite IH. by eexists.
  - destruct (isWildcardMeta c) eqn:Hmeta.
    + destruct (meta_char c Hmeta) as [Hsyn _]. simpl.
      rewrite Hstar. simpl. rewrite Hsyn, IH. by eexists.
    + destruct (Ascii.eqb c "?") eqn:Hquest.
      * apply Ascii.eqb_eq in Hquest as ->. simpl. rewrite IH. by eexists.
      * destruct (ordinary_char c Hmeta Hstar Hquest) as (Hsyn & Hback & Hdot).
        simpl. rewrite Hstar. simpl.
        rewrite Hback, Hdot, Hstar, Hquest, Hsyn, IH. by eexists.
Qed.

(** Every source [makeWildcardRegExp] builds is read: [null] comes back
    only for a syntax error. *)
Lemma compileRegExp_wildcard_read p :
  compileRegExp (replaceStars (escapeWildcard p)) ≠ Unread.
Proof.
  unfold compileRegExp. destruct (lexRegExp_wildcard_read p) as [ts ->].
  apply parsePieces_read.
Qed.

(** ** Truncation *)

Lemma length_substring_prefix n s :
  String.length (String.substring 0 n s) = (n `min` String.length s)%nat.
Proof.
  revert s. induction n as [|n IH]; intros [|c s]; simpl; try done.
  by rewrite IH.
Qed.

Lemma substring_whole n s :
  (String.length s ≤ n)%nat → String.substring 0 n s = s.
Proof.
  revert s. induction n as [|n IH]; intros [|c s]; simpl; try done; try lia.
  intros Hlen. rewrite IH; [done | lia].
Qed.

(** The truncation policy on a body text: above the ceiling the first
    [maxLength] code units are kept and the flag is set, otherwise the text
    is kept whole and the flag is clear; so the flag is set exactly when what
    is kept is shorter than the text. *)
Lemma safeTruncate_policy (s : string) (maxLength : Z) :
  0 ≤ maxLength →
  ∃ kept truncated,
    safeTruncate (Normal (JStr s)) maxLength = (JStr kept, truncated)
    ∧ (maxLength < strLength s →
       kept = String.substring 0 (Z.to_nat maxLength) s
       ∧ strLength kept = maxLength ∧ truncated = true)
    ∧ (strLength s ≤ maxLength → kept = s ∧ truncated = false)
    ∧ (truncated = true ↔ strLength kept < strLength s).
Proof.
  intros Hmax. unfold safeTruncate, strLength.
  destruct s as [|c s]; [exists ""%string, false; simpl; repeat split; try done; lia |].
  cbn [truthy isString negb orb String.eqb]. unfold strLength.
  destruct (maxLength <? Z.of_nat (String.length (String c s))) eqn:Hlt.
  - apply Z.ltb_lt in Hlt. eexists _, _. split; [done |].
    assert (Z.of_nat (String.length (sliceTo (String c s) maxLength)) = maxLength) as Hlen.
    { unfold sliceTo, strLength.
      assert ((maxLength <? 0) = false) as -> by lia.
      rewrite length_substring_prefix. lia. }
    assert (sliceTo (String c s) maxLength
            = String.substring 0 (Z.to_nat maxLength) (String c s)) as Hslice.
    { unfold sliceTo, strLength.
      assert ((maxLength <? 0) = false) as -> by lia.
      f_equal. lia. }
    repeat split; try done; try lia.
  - apply Z.ltb_ge in Hlt. exists (String c s), false.
    repeat split; try done; try lia.
Qed.
